(** * gr-kiwisdr: the [kiwisdr_impl] streaming block

    A shallow embedding of [lib/kiwisdr_impl.h].  The header defines the
    twelve status accessors inline, on top of [std::map::at], [std::stoi]
    and [std::stod]; those three library functions are modelled in
    [Module Std].  The bodies of [general_work], [start], [stop] and
    [set_rx_parameters], and the classes [kiwi_rx_parameters] and
    [kiwi_ws_client], live in files that are not part of the header; they
    are modelled from the design document and marked as such. *)

From Stdlib Require Import ZArith Ascii String List Lia Bool.
From Stdlib Require Import Floats.SpecFloat.
From stdpp Require Import base option list strings gmap.

Local Open Scope Z_scope.

(** ** The C++ standard library, as far as the header uses it *)
Module Std.

(** The two exception classes that [at], [stoi] and [stod] throw.  The
    argument is the [what()] text, which names the thrower. *)
Inductive exn : Type :=
| out_of_range (what : string)
| invalid_argument (what : string).

(** A call either returns or throws. *)
Inductive res (A : Type) : Type :=
| Ok (a : A)
| Throw (e : exn).
Arguments Ok {A} a.
Arguments Throw {A} e.

Definition bind {A B : Type} (x : res A) (f : A -> res B) : res B :=
  match x with
  | Ok a => f a
  | Throw e => Throw e
  end.

Definition returns {A : Type} (x : res A) : bool :=
  match x with Ok _ => true | Throw _ => false end.

(** [std::map<std::string, std::string>::at]: the mapped value, or
    [std::out_of_range] when the key is absent. *)
Definition at_ (m : gmap string string) (k : string) : res string :=
  match m !! k with
  | Some v => Ok v
  | None => Throw (out_of_range "map::at")
  end.

(** *** Character classes of the C locale *)

Definition isspace (c : ascii) : bool :=
  match c with
  | " " | "009" | "010" | "011" | "012" | "013" => true
  | _ => false
  end%char.

Definition digit_val (c : ascii) : option Z :=
  let n := Z.of_N (N_of_ascii c) in
  if (48 <=? n) && (n <=? 57) then Some (n - 48) else None.

Definition isdigit (c : ascii) : bool :=
  match digit_val c with Some _ => true | None => false end.

Fixpoint skip_space (s : string) : string :=
  match s with
  | String c s' => if isspace c then skip_space s' else s
  | EmptyString => s
  end.

(** An optional sign: whether it is a minus, and what follows it. *)
Definition take_sign (s : string) : bool * string :=
  match s with
  | String "-"%char s' => (true, s')
  | String "+"%char s' => (false, s')
  | _ => (false, s)
  end.

Definition xdigit_val (c : ascii) : option Z :=
  let n := Z.of_N (N_of_ascii c) in
  if (48 <=? n) && (n <=? 57) then Some (n - 48)
  else if (97 <=? n) && (n <=? 102) then Some (n - 87)
  else if (65 <=? n) && (n <=? 70) then Some (n - 55)
  else None.

(** The longest run of digits (as [val] recognises them) at the front
    of [s], most significant first, and what follows it. *)
Fixpoint take_run (val : ascii -> option Z) (s : string) : list Z * string :=
  match s with
  | String c s' =>
      match val c with
      | Some d => let '(ds, rest) := take_run val s' in (d :: ds, rest)
      | None => ([], s)
      end
  | EmptyString => ([], s)
  end.

Definition take_digits : string -> list Z * string := take_run digit_val.
Definition take_xdigits : string -> list Z * string := take_run xdigit_val.

Definition radix_value (base : Z) (ds : list Z) : Z :=
  fold_left (fun acc d => base * acc + d) ds 0.

Definition decimal : list Z -> Z := radix_value 10.

(** *** [strtol] in base 10 and [std::stoi] *)

Definition LONG_MIN : Z := - 2 ^ 63.
Definition LONG_MAX : Z := 2 ^ 63 - 1.
Definition INT_MIN : Z := - 2 ^ 31.
Definition INT_MAX : Z := 2 ^ 31 - 1.

Record strtol_result : Type := mk_strtol
  { sl_value : Z;        (* the returned long *)
    sl_converted : bool; (* endptr <> str *)
    sl_erange : bool }.  (* errno = ERANGE *)

Definition strtol (s : string) : strtol_result :=
  let '(neg, s1) := take_sign (skip_space s) in
  let '(ds, _) := take_digits s1 in
  match ds with
  | [] => mk_strtol 0 false false
  | _ :: _ =>
      let v := if neg then - decimal ds else decimal ds in
      if v <? LONG_MIN then mk_strtol LONG_MIN true true
      else if LONG_MAX <? v then mk_strtol LONG_MAX true true
      else mk_strtol v true false
  end.

(** [std::stoi(str)]: [strtol] followed by the checks of the library's
    conversion helper: nothing converted, [ERANGE], or a long outside
    the range of [int]. *)
Definition stoi (s : string) : res Z :=
  let r := strtol s in
  if negb (sl_converted r) then Throw (invalid_argument "stoi")
  else if sl_erange r || (sl_value r <? INT_MIN) || (INT_MAX <? sl_value r)
       then Throw (out_of_range "stoi")
  else Ok (sl_value r).

(** *** [strtod] and [std::stod]

    A [double] is an IEEE 754 binary64 value: 53 bits of precision,
    infinities at exponent 1024.  The conversion is that of the GNU C
    library in the C locale and the default rounding mode: correctly
    rounded in the normal range, and as [round_and_return] has it below
    that range.  NaN payloads and the sign of a NaN are not represented. *)

Definition prec : Z := 53.
Definition emax : Z := 1024.
Definition double : Type := spec_float.

(** The limits of the format, as [<float.h>] names them. *)
Definition MANT_DIG : Z := 53.
Definition MIN_EXP : Z := -1021.
Definition MAX_EXP : Z := 1024.

Record strtod_result : Type := mk_strtod
  { sd_value : double;
    sd_converted : bool; (* endptr <> str *)
    sd_erange : bool }.  (* errno = ERANGE *)

(** A pair [(n, m)] with [n / m = (p / q) / 2 ^ k]. *)
Definition over_power (p q k : Z) : Z * Z :=
  if 0 <=? k then (p, q * 2 ^ k) else (p * 2 ^ (- k), q).

(** The exponent of the leading bit of the positive ratio [p / q]. *)
Definition leading_exponent (p q : Z) : Z :=
  let d := Z.log2 p - Z.log2 q in
  let '(n, m) := over_power p q d in
  if m <=? n then d else d - 1.

(** What the conversion keeps of an exact value: the exponent of its
    leading bit, its first [MANT_DIG] bits, the bit after them, and
    whether any later bit is set. *)
Record leading_bits : Type := mk_bits
  { lb_exponent : Z;
    lb_mantissa : Z;
    lb_half : bool;
    lb_more : bool }.

Definition leading (p q : Z) : leading_bits :=
  let e := leading_exponent p q in
  let '(n, m) := over_power p q (e - (MANT_DIG - 1)) in
  let r := n mod m in
  mk_bits e (n / m) (m <=? 2 * r) (negb ((r =? 0) || (2 * r =? m))).

(** Rounding to nearest, ties to even: whether to add one to a mantissa
    of the given parity. *)
Definition round_away (odd half more : bool) : bool := half && (more || odd).

Definition finite (neg : bool) (m e : Z) : double :=
  match m with
  | Zpos p => S754_finite neg p e
  | _ => S754_zero neg
  end.

(** The GNU C library's [round_and_return], in the default rounding
    mode and with tininess detected after rounding (x86-64).  A value
    below the normal range is shifted right before it is rounded;
    [ERANGE] is set when it is tiny and the shifted value is inexact.
    The half bit that follows the [MANT_DIG] leading bits is not carried
    into the shifted value, except for decimal text shifted by two or
    more bits, where the cut-off of the digit string has already turned
    it into a trailing bit. *)
Definition round_and_return (neg hex : bool) (b : leading_bits) : strtod_result :=
  let e := lb_exponent b in
  let M := lb_mantissa b in
  if e <? MIN_EXP - 1 - MANT_DIG then mk_strtod (S754_zero neg) true true
  else if MAX_EXP <=? e then mk_strtod (S754_infinity neg) true true
  else if e <? MIN_EXP - 1 then
    let shift := MIN_EXP - 1 - e in
    let tiny :=
      negb ((shift =? 1)
            && round_away (Z.odd M) (lb_half b) (lb_more b)
            && (M + 1 =? 2 ^ MANT_DIG)) in
    let half := Z.testbit M (shift - 1) in
    let more :=
      lb_more b
      || (negb hex && lb_half b && (2 <=? shift))
      || negb (M mod 2 ^ (shift - 1) =? 0) in
    let mant := Z.shiftr M shift in
    let mant' := if round_away (Z.odd mant) half more then mant + 1 else mant in
    mk_strtod (finite neg mant' (MIN_EXP - MANT_DIG)) true (tiny && (half || more))
  else
    let mant :=
      if round_away (Z.odd M) (lb_half b) (lb_more b) then M + 1 else M in
    if mant =? 2 ^ MANT_DIG then
      if MAX_EXP <=? e + 1 then mk_strtod (S754_infinity neg) true true
      else mk_strtod (finite neg (2 ^ (MANT_DIG - 1)) (e + 1 - (MANT_DIG - 1)))
             true false
    else mk_strtod (finite neg mant (e - (MANT_DIG - 1))) true false.

(** The value [m * 10 ^ k] of decimal text, or [m * 2 ^ k] of
    hexadecimal text, with sign [neg], converted. *)
Definition scaled (neg hex : bool) (m k : Z) : strtod_result :=
  let base := if hex then 2 else 10 in
  match m with
  | Zpos _ =>
      let '(n, d) :=
        if 0 <=? k then (m * base ^ k, 1) else (m, base ^ (- k)) in
      round_and_return neg hex (leading n d)
  | _ => mk_strtod (S754_zero neg) true false
  end.

Definition tolower (c : ascii) : ascii :=
  let n := N_of_ascii c in
  if ((65 <=? n) && (n <=? 90))%N then ascii_of_N (n + 32) else c.

(** Whether [s] starts with the lower-case word [p], ignoring case. *)
Fixpoint starts_with_ci (p s : string) : bool :=
  match p, s with
  | EmptyString, _ => true
  | String a p', String c s' =>
      if Ascii.eqb a (tolower c) then starts_with_ci p' s' else false
  | String _ _, EmptyString => false
  end.

(** An optional exponent part, introduced by the letter [mark] in
    either case: a sign and a nonempty run of decimal digits.  Without
    digits the letter is not part of the number and the exponent is 0. *)
Definition take_exponent (mark : ascii) (s : string) : Z :=
  match s with
  | String c s' =>
      if Ascii.eqb (tolower c) mark then
        let '(neg, s1) := take_sign s' in
        let '(ds, _) := take_digits s1 in
        match ds with
        | [] => 0
        | _ :: _ => if neg then - decimal ds else decimal ds
        end
      else 0
  | EmptyString => 0
  end.

(** A digit run with an optional radix point inside it: the digits
    before and after the point, and what follows. *)
Definition take_mantissa (val : ascii -> option Z) (s : string)
  : list Z * list Z * string :=
  let '(ip, s1) := take_run val s in
  match s1 with
  | String "."%char s2 => let '(fp, s3) := take_run val s2 in (ip, fp, s3)
  | _ => (ip, [], s1)
  end.

Definition strtod_decimal (neg : bool) (s : string) : strtod_result :=
  let '(ip, fp, rest) := take_mantissa digit_val s in
  match ip ++ fp with
  | [] => mk_strtod (S754_zero false) false false
  | ds => scaled neg false (decimal ds)
            (take_exponent "e" rest - Z.of_nat (length fp))
  end.

Definition strtod_hex (neg : bool) (s : string) : option strtod_result :=
  match s with
  | String "0"%char (String x s') =>
      if Ascii.eqb (tolower x) "x" then
        let '(ip, fp, rest) := take_mantissa xdigit_val s' in
        match ip ++ fp with
        | [] => None
        | ds => Some (scaled neg true (radix_value 16 ds)
                        (take_exponent "p" rest - 4 * Z.of_nat (length fp)))
        end
      else None
  | _ => None
  end.

Definition strtod (s : string) : strtod_result :=
  let '(neg, s1) := take_sign (skip_space s) in
  if starts_with_ci "inf" s1 then mk_strtod (S754_infinity neg) true false
  else if starts_with_ci "nan" s1 then mk_strtod S754_nan true false
  else match strtod_hex neg s1 with
       | Some r => r
       | None => strtod_decimal neg s1
       end.

(** [std::stod(str)]: [strtod] followed by the checks of the library's
    conversion helper. *)
Definition stod (s : string) : res double :=
  let r := strtod s in
  if negb (sd_converted r) then Throw (invalid_argument "stod")
  else if sd_erange r then Throw (out_of_range "stod")
  else Ok (sd_value r).

(** The double whose value is the integer [z], when [z] needs no
    rounding. *)
Definition double_of_Z (z : Z) : double := binary_normalize prec emax z 0 false.

End Std.

(** ** Errors

    The header declares no error type of its own: the accessors throw the
    library's exceptions.  [MissingKey] is what [at] throws. *)

Definition MissingKey : Std.exn := Std.out_of_range "map::at".

(** Modelled from the spec: the errors of the operations whose bodies
    are missing, as its error taxonomy names them. *)
Inductive error : Type :=
| ConnectError
| HandshakeError
| NotConnected
| InvalidRange.

(** ** [kiwi_rx_parameters] *)
Module RxParameters.

(** Modelled from the spec: [kiwi_rx_parameters.h] is missing.  The
    tuning triple: center frequency in kHz as a double, the passband
    edges in Hz as ints.  It is also the payload of a parameter-change
    command, which carries the same three fields. *)
Record triple : Type := mk
  { freq_kHz : Std.double;
    low_cut_Hz : Z;
    high_cut_Hz : Z }.

(** Modelled from the spec: [kiwi_rx_parameters.h] is missing.  [set]
    validates [low_cut < high_cut] and nothing else, stores the triple
    and returns the serialized command with the new stored triple. *)
Definition set (p : triple) (f : Std.double) (lo hi : Z)
  : error + (triple * triple) :=
  if lo <? hi then inr (mk f lo hi, mk f lo hi) else inl InvalidRange.

(** Modelled from the spec: [current] returns the last validated
    triple. *)
Definition current (p : triple) : triple := p.

End RxParameters.

(** ** [kiwi_ws_client] *)
Module ReceiverClient.

(** Modelled from the spec: [kiwi_ws_client.h] is missing.  The states
    of the connection. *)
Inductive ConnectionState : Type :=
| Disconnected | Handshaking | Streaming | Closing | Failed.

#[global] Instance ConnectionState_eq_dec : EqDecision ConnectionState.
Proof. solve_decision. Defined.

Section Client.
Context {sample : Type}.

(** Modelled from the spec: a decoded frame, with its sequence
    indicator and its samples. *)
Record SampleFrame : Type := mk_frame
  { seq : nat;
    payload : list sample }.

(** Modelled from the spec: [kiwi_ws_client.h] is missing.  The client
    owns the connection state, the cancellation flag, the transport, the
    receive loop, the bounded queue of frames (oldest first) with its
    counter of dropped frames, and the commands written to the transport
    (oldest first). *)
Record t : Type := mk
  { state : ConnectionState;
    cancel : bool;
    transport_open : bool;
    loop_running : bool;
    queue : list SampleFrame;
    capacity : nat;
    dropped : nat;
    sent : list RxParameters.triple }.

Definition set_queue (c : t) (q : list SampleFrame) : t :=
  mk (state c) (cancel c) (transport_open c) (loop_running c)
     q (capacity c) (dropped c) (sent c).

(** The samples waiting in a queue, in delivery order. *)
Definition samples_of (q : list SampleFrame) : list sample :=
  concat (map payload q).

(** Modelled from the spec: the receive loop pushes a decoded frame;
    when the queue is full the oldest undelivered frame is discarded and
    counted. *)
Definition push_frame (c : t) (f : SampleFrame) : t :=
  if (capacity c <=? length (queue c))%nat
  then mk (state c) (cancel c) (transport_open c) (loop_running c)
          (tail (queue c) ++ [f]) (capacity c) (S (dropped c)) (sent c)
  else set_queue c (queue c ++ [f]).

(** Modelled from the spec: popping removes and returns up to [n]
    samples from the front of the queue, fewer when fewer are buffered,
    none when nothing is ready.  A frame that is only partly consumed
    keeps its remaining samples. *)
Fixpoint pop_queue (n : nat) (q : list SampleFrame)
  : list sample * list SampleFrame :=
  match q with
  | [] => ([], [])
  | f :: q' =>
      let k := length (payload f) in
      if (k <=? n)%nat
      then let '(out, q'') := pop_queue (n - k) q' in (payload f ++ out, q'')
      else (take n (payload f),
            mk_frame (seq f) (drop n (payload f)) :: q')
  end.

(** Modelled from the spec: [pop_samples] on the client; nothing but
    the queue changes. *)
Definition pop_samples (c : t) (max_count : nat) : list sample * t :=
  let '(out, q) := pop_queue max_count (queue c) in (out, set_queue c q).

(** Modelled from the spec: [send_parameters] writes the command to the
    transport while Streaming and fails with [NotConnected] otherwise. *)
Definition send_parameters (c : t) (cmd : RxParameters.triple) : error + t :=
  match state c with
  | Streaming =>
      inr (mk (state c) (cancel c) (transport_open c) (loop_running c)
              (queue c) (capacity c) (dropped c) (sent c ++ [cmd]))
  | _ => inl NotConnected
  end.

(** Modelled from the spec: [stop] sets the cancellation flag, closes
    the transport, joins the receive loop and moves to Disconnected; on
    a client that is already stopped it does nothing. *)
Definition stop (c : t) : t :=
  match state c with
  | Disconnected => c
  | _ => mk Disconnected true false false
            (queue c) (capacity c) (dropped c) (sent c)
  end.

End Client.
Arguments t : clear implicits.
Arguments SampleFrame : clear implicits.

End ReceiverClient.

(** ** [kiwisdr_impl] *)
Module Kiwisdr.

(** Modelled from the spec: the three outcomes of the pull contract. *)
Inductive pull_signal : Type :=
| items_copied
| not_ready
| terminal.

(** Modelled from the spec: what the pull operation returns, the count
    of samples copied and the outcome it signals.  The count is 0 when
    no samples are available, whichever of [not_ready] and [terminal]
    is signalled. *)
Record work_result : Type := result
  { copied : nat;
    signal : pull_signal }.

Section Block.
Context {sample : Type}.

(** The data members of the class.  The client behind the shared
    pointer is held by value. *)
Record kiwisdr_impl : Type := mk
  { _ws_client_ptr : ReceiverClient.t sample;
    _msg : gmap string string;
    _host : string;
    _port : string;
    _rx_parameters : RxParameters.triple }.

Definition with_client (b : kiwisdr_impl) (c : ReceiverClient.t sample)
  : kiwisdr_impl :=
  mk c (_msg b) (_host b) (_port b) (_rx_parameters b).

Definition with_msg (b : kiwisdr_impl) (m : gmap string string)
  : kiwisdr_impl :=
  mk (_ws_client_ptr b) m (_host b) (_port b) (_rx_parameters b).

(** *** The status accessors, as the header defines them *)

Definition get_client_public_ip (b : kiwisdr_impl) : Std.res string :=
  Std.at_ (_msg b) "client_public_ip".

Definition get_rx_chans (b : kiwisdr_impl) : Std.res Z :=
  Std.bind (Std.at_ (_msg b) "rx_chans") Std.stoi.

Definition get_chan_no_pwd (b : kiwisdr_impl) : Std.res Z :=
  Std.bind (Std.at_ (_msg b) "chan_no_pwd") Std.stoi.

Definition is_password_ok (b : kiwisdr_impl) : Std.res bool :=
  Std.bind (Std.at_ (_msg b) "badp") (fun v => Std.Ok (String.eqb v "0")).

Definition get_version (b : kiwisdr_impl) : Std.res string :=
  Std.bind (Std.at_ (_msg b) "version_maj") (fun maj =>
  Std.bind (Std.at_ (_msg b) "version_min") (fun min =>
  Std.Ok (String.append (String.append maj ".") min))).

Definition get_cfg (b : kiwisdr_impl) : Std.res string :=
  Std.at_ (_msg b) "load_cfg".

Definition get_audio_rate (b : kiwisdr_impl) : Std.res Std.double :=
  Std.bind (Std.at_ (_msg b) "audio_rate") Std.stod.

Definition get_sample_rate (b : kiwisdr_impl) : Std.res Std.double :=
  Std.bind (Std.at_ (_msg b) "sample_rate") Std.stod.

Definition is_audio_initialized (b : kiwisdr_impl) : Std.res bool :=
  Std.bind (Std.at_ (_msg b) "audio_init") (fun v => Std.Ok (String.eqb v "1")).

Definition get_center_freq (b : kiwisdr_impl) : Std.res Std.double :=
  Std.bind (Std.at_ (_msg b) "center_freq") Std.stod.

Definition get_bandwidth (b : kiwisdr_impl) : Std.res Std.double :=
  Std.bind (Std.at_ (_msg b) "bandwidth") Std.stod.

Definition get_adc_clk_nom (b : kiwisdr_impl) : Std.res Std.double :=
  Std.bind (Std.at_ (_msg b) "adc_clk_nom") Std.stod.

(** Modelled from the spec: the code that fills [_msg] is missing.  A
    status response is a sequence of key/value fields; each one is
    stored with [set], which inserts or overwrites without looking at
    the value. *)
Definition set (m : gmap string string) (kv : string * string)
  : gmap string string :=
  <[kv.1 := kv.2]> m.

(** Modelled from the spec: a status response is merged into the
    registry field by field, in the order received. *)
Definition on_status (b : kiwisdr_impl) (response : list (string * string))
  : kiwisdr_impl :=
  with_msg b (fold_left set response (_msg b)).

(** *** The operations whose bodies are outside the header *)

(** Modelled from the spec: the states in which an empty queue ends the
    stream. *)
Definition is_terminal (st : ReceiverClient.ConnectionState) : bool :=
  match st with
  | ReceiverClient.Failed | ReceiverClient.Disconnected => true
  | _ => false
  end.

(** Modelled from the spec: copying [xs] into the front of the caller's
    buffer. *)
Definition copy_out (xs out : list sample) : list sample :=
  xs ++ drop (length xs) out.

(** Modelled from the spec: the body of [general_work] is missing.  It
    pops up to [noutput_items] samples, copies them into the output
    buffer and returns how many.  It returns 0 when no samples are
    available; the terminal signal is given only with an empty queue in
    state Failed or Disconnected, and [not_ready] otherwise.  The
    scheduler passes a count, so [noutput_items] is a [nat]. *)
Definition general_work (b : kiwisdr_impl) (noutput_items : nat)
    (output_items : list sample)
  : work_result * list sample * kiwisdr_impl :=
  let c := _ws_client_ptr b in
  match ReceiverClient.queue c with
  | [] =>
      (result 0 (if is_terminal (ReceiverClient.state c)
                 then terminal else not_ready),
       output_items, b)
  | _ :: _ =>
      let '(xs, c') := ReceiverClient.pop_samples c noutput_items in
      (result (length xs)
              (match xs with [] => not_ready | _ :: _ => items_copied end),
       copy_out xs output_items, with_client b c')
  end.

(** Modelled from the spec: the body of [stop] is missing.  It stops
    the client and returns true. *)
Definition stop (b : kiwisdr_impl) : bool * kiwisdr_impl :=
  (true, with_client b (ReceiverClient.stop (_ws_client_ptr b))).

(** Modelled from the spec: the body of [set_rx_parameters] is missing.
    It delegates to [RxParameters.set], then to [send_parameters], and
    lets their errors through. *)
Definition set_rx_parameters (b : kiwisdr_impl)
    (freq_kHz : Std.double) (low_cut_Hz high_cut_Hz : Z)
  : option error * kiwisdr_impl :=
  match RxParameters.set (_rx_parameters b) freq_kHz low_cut_Hz high_cut_Hz with
  | inl e => (Some e, b)
  | inr (cmd, p) =>
      let b1 := mk (_ws_client_ptr b) (_msg b) (_host b) (_port b) p in
      match ReceiverClient.send_parameters (_ws_client_ptr b1) cmd with
      | inl e => (Some e, b1)
      | inr c => (None, with_client b1 c)
      end
  end.

(** Modelled from the spec: reading the stored triple back. *)
Definition current (b : kiwisdr_impl) : RxParameters.triple :=
  RxParameters.current (_rx_parameters b).

End Block.
Arguments kiwisdr_impl : clear implicits.

End Kiwisdr.

(** ** What the prose means by a numeric prefix and by an exact double

    These definitions follow the words of the specification, not the
    code; the theorems below compare them with [Std.stoi] and [Std.stod]. *)
Module Reading.

Definition all_chars (P : ascii -> bool) (s : string) : bool :=
  forallb P (list_ascii_of_string s).

(** Whether the first character of [s] satisfies [P]. *)
Definition starts_with (P : ascii -> bool) (s : string) : bool :=
  match s with
  | String c _ => P c
  | EmptyString => false
  end.

(** The value of a decimal numeral in positional notation. *)
Fixpoint value_of (ds : string) : Z :=
  match ds with
  | String c r =>
      default 0 (Std.digit_val c) * 10 ^ Z.of_nat (String.length r) + value_of r
  | EmptyString => 0
  end.

Inductive sign_text : string -> bool -> Prop :=
| sign_none : sign_text "" false
| sign_plus : sign_text "+" false
| sign_minus : sign_text "-" true.

(** [s] is white space, an optional sign, the nonempty numeral [ds]
    and a rest that does not continue the numeral; [z] is the signed
    value of [ds]. *)
Definition numeric_prefix (s : string) (z : Z) : Prop :=
  exists ws sg neg ds rest,
    s = ws +:+ sg +:+ ds +:+ rest /\
    all_chars Std.isspace ws = true /\
    sign_text sg neg /\
    ds <> EmptyString /\
    all_chars Std.isdigit ds = true /\
    starts_with Std.isdigit rest = false /\
    z = if neg then - value_of ds else value_of ds.

(** The longest numeric prefix of [s] is a valid [int] with value [z]. *)
Definition int_prefix (s : string) (z : Z) : Prop :=
  numeric_prefix s z /\ Std.INT_MIN <= z <= Std.INT_MAX.

(** The double [d] is the binary64 number whose value is exactly the
    integer [z]: a valid mantissa and exponent with [m * 2 ^ e = z]. *)
Definition represents (d : Std.double) (z : Z) : Prop :=
  match d with
  | S754_finite s m e =>
      valid_binary Std.prec Std.emax d = true /\ e <= 0 /\
      (if s then Zneg m else Zpos m) = z * 2 ^ (- e)
  | _ => False
  end.

End Reading.

(** ** The twelve accessors as one family *)
Module Accessor.
Import Kiwisdr.

Inductive name : Type :=
| client_public_ip | rx_chans | chan_no_pwd | password_ok | version | cfg
| audio_rate | sample_rate | audio_initialized | center_freq | bandwidth
| adc_clk_nom.

(** A returned value of any of the four result types. *)
Inductive value : Type :=
| VString (s : string)
| VInt (z : Z)
| VDouble (d : Std.double)
| VBool (b : bool).

Definition fmap {A B : Type} (f : A -> B) (x : Std.res A) : Std.res B :=
  Std.bind x (fun a => Std.Ok (f a)).

(** Calling the accessor [a] of the block [b]. *)
Definition call {sample : Type} (a : name) (b : kiwisdr_impl sample)
  : Std.res value :=
  match a with
  | client_public_ip => fmap VString (get_client_public_ip b)
  | rx_chans => fmap VInt (get_rx_chans b)
  | chan_no_pwd => fmap VInt (get_chan_no_pwd b)
  | password_ok => fmap VBool (is_password_ok b)
  | version => fmap VString (get_version b)
  | cfg => fmap VString (get_cfg b)
  | audio_rate => fmap VDouble (get_audio_rate b)
  | sample_rate => fmap VDouble (get_sample_rate b)
  | audio_initialized => fmap VBool (is_audio_initialized b)
  | center_freq => fmap VDouble (get_center_freq b)
  | bandwidth => fmap VDouble (get_bandwidth b)
  | adc_clk_nom => fmap VDouble (get_adc_clk_nom b)
  end.

(** The registry keys an accessor reads, in the order it reads them. *)
Definition keys (a : name) : list string :=
  match a with
  | client_public_ip => ["client_public_ip"]
  | rx_chans => ["rx_chans"]
  | chan_no_pwd => ["chan_no_pwd"]
  | password_ok => ["badp"]
  | version => ["version_maj"; "version_min"]
  | cfg => ["load_cfg"]
  | audio_rate => ["audio_rate"]
  | sample_rate => ["sample_rate"]
  | audio_initialized => ["audio_init"]
  | center_freq => ["center_freq"]
  | bandwidth => ["bandwidth"]
  | adc_clk_nom => ["adc_clk_nom"]
  end%string.

(** The stored strings [vs] of those keys, parsed to the accessor's
    type: a string as it is, an integer by [stoi], a double by [stod],
    a flag by comparison with its digit, the version by joining its
    two parts with a dot. *)
Definition parsed (a : name) (vs : list string) : Std.res value :=
  match a, vs with
  | (client_public_ip | cfg), [v] => Std.Ok (VString v)
  | (rx_chans | chan_no_pwd), [v] => fmap VInt (Std.stoi v)
  | (audio_rate | sample_rate | center_freq | bandwidth | adc_clk_nom), [v] =>
      fmap VDouble (Std.stod v)
  | password_ok, [v] => Std.Ok (VBool (String.eqb v "0"))
  | audio_initialized, [v] => Std.Ok (VBool (String.eqb v "1"))
  | version, [maj; min] => Std.Ok (VString (maj +:+ "." +:+ min))
  | _, _ => Std.Throw MissingKey
  end.

(** The value a response gives to the key [k]: that of its last field
    named [k]. *)
Definition later (k : string) (acc : option string) (kv : string * string)
  : option string :=
  if decide (kv.1 = k) then Some kv.2 else acc.

Definition field (response : list (string * string)) (k : string)
  : option string :=
  fold_left (later k) response None.

End Accessor.

(** ** Runs of the block: frames arriving between pulls *)
Module Run.
Import Kiwisdr.

Section Run.
Context {sample : Type}.

Inductive event : Type :=
| Decoded (f : ReceiverClient.SampleFrame sample)
| Pull (noutput_items : nat) (output_items : list sample).

(** The samples a pull handed to the caller. *)
Definition delivered (r : work_result) (out : list sample) : list sample :=
  take (copied r) out.

(** The deliveries of the pulls of a trace, in order, and the block
    afterwards. *)
Fixpoint run (b : kiwisdr_impl sample) (tr : list event)
  : list (list sample) * kiwisdr_impl sample :=
  match tr with
  | [] => ([], b)
  | Decoded f :: tr' =>
      run (with_client b (ReceiverClient.push_frame (_ws_client_ptr b) f)) tr'
  | Pull n out :: tr' =>
      let '(r, out', b') := general_work b n out in
      let '(ds, b'') := run b' tr' in
      (delivered r out' :: ds, b'')
  end.

(** The samples the receive loop decoded during a trace, in order. *)
Fixpoint decoded (tr : list event) : list sample :=
  match tr with
  | [] => []
  | Decoded f :: tr' => ReceiverClient.payload f ++ decoded tr'
  | Pull _ _ :: tr' => decoded tr'
  end.

Definition buffered (b : kiwisdr_impl sample) : list sample :=
  ReceiverClient.samples_of (ReceiverClient.queue (_ws_client_ptr b)).

Definition drops (b : kiwisdr_impl sample) : nat :=
  ReceiverClient.dropped (_ws_client_ptr b).

End Run.

End Run.

(** ** Concrete blocks for the examples *)
Module Examples.

Definition client (st : ReceiverClient.ConnectionState)
    (q : list (ReceiverClient.SampleFrame nat)) : ReceiverClient.t nat :=
  let live := bool_decide (st = ReceiverClient.Streaming) in
  ReceiverClient.mk st false live live q 2 0 [].

Definition params : RxParameters.triple :=
  RxParameters.mk (Std.double_of_Z 7020) 300 2700.

Definition block (st : ReceiverClient.ConnectionState)
    (q : list (ReceiverClient.SampleFrame nat))
    (fields : list (string * string)) : Kiwisdr.kiwisdr_impl nat :=
  Kiwisdr.on_status
    (Kiwisdr.mk (client st q) ∅ "kiwi.local" "8073" params) fields.

End Examples.

(** ** Shapes of stored values and of accessors *)
Module Shape.
Import Accessor.

(** The accessors that convert the stored string to a number. *)
Definition numeric (a : name) : bool :=
  match a with
  | rx_chans | chan_no_pwd | audio_rate | sample_rate | center_freq
  | bandwidth | adc_clk_nom => true
  | _ => false
  end.

(** The accessors that convert the stored string to a double. *)
Definition real (a : name) : bool :=
  match a with
  | audio_rate | sample_rate | center_freq | bandwidth | adc_clk_nom => true
  | _ => false
  end.

(** A returned value with its double negated. *)
Definition negate (x : value) : value :=
  match x with
  | VDouble d => VDouble (SFopp d)
  | _ => x
  end.

(** The double [d] is a zero, a finite number or an infinity, with the
    sign [sx]. *)
Definition signed_as (sx : bool) (d : Std.double) : Prop :=
  match d with
  | S754_nan => False
  | S754_zero s | S754_infinity s | S754_finite s _ _ => s = sx
  end.

(** A conversion result with its value negated. *)
Definition opposite (r : Std.strtod_result) : Std.strtod_result :=
  Std.mk_strtod (SFopp (Std.sd_value r)) (Std.sd_converted r) (Std.sd_erange r).

(** Whether [s] starts with white space or with a sign. *)
Definition starts_blank_or_signed (s : string) : bool :=
  Reading.starts_with
    (fun c => Std.isspace c || Ascii.eqb c "-" || Ascii.eqb c "+") s.

(** The sign a stored string carries after its leading white space, and
    the text after that sign. *)
Definition sign_of (v : string) : bool := (Std.take_sign (Std.skip_space v)).1.
Definition unsigned (v : string) : string := (Std.take_sign (Std.skip_space v)).2.

(** Whether the text of [v], after white space and sign, starts with the
    lower-case [word] in any mix of cases. *)
Definition spells (word v : string) : bool :=
  Std.starts_with_ci word (unsigned v).

Definition no_dot (s : string) : bool :=
  Reading.all_chars (fun c => negb (Ascii.eqb c ".")) s.

(** The character of a decimal digit. *)
Definition digit_char (d : Z) : ascii := ascii_of_N (Z.to_N (48 + d)).

(** The decimal numeral of a natural number below [10 ^ fuel], written
    in front of [acc]. *)
Fixpoint show_digits (fuel : nat) (n : Z) (acc : string) : string :=
  match fuel with
  | O => acc
  | S fuel' =>
      let acc' := String (digit_char (n mod 10)) acc in
      if n <? 10 then acc' else show_digits fuel' (n / 10) acc'
  end.

(** The decimal numeral of an integer of at most twenty digits, with a
    minus sign when it is negative. *)
Definition show_int (z : Z) : string :=
  if z <? 0 then String "-" (show_digits 20 (- z) EmptyString)
  else show_digits 20 z EmptyString.

End Shape.

(** ** What the prose means by a decimal number and its double

    As in [Reading], these definitions follow the words of the
    specification and of the C standard, not the code. *)
Module Real.
Import Reading.

(** The digits after the point: none, or a point and the digits [fp]. *)
Inductive fraction_text : string -> string -> Prop :=
| fraction_none : fraction_text "" ""
| fraction_some fp :
    all_chars Std.isdigit fp = true -> fraction_text (String "." fp) fp.

(** The exponent part: none, or the letter e in either case, an
    optional sign and a nonempty numeral, with its signed value. *)
Inductive exponent_text : string -> Z -> Prop :=
| exponent_none : exponent_text "" 0
| exponent_some c sg neg ds :
    Std.tolower c = "e"%char -> sign_text sg neg ->
    ds <> EmptyString -> all_chars Std.isdigit ds = true ->
    exponent_text (String c (sg +:+ ds))
      (if neg then - value_of ds else value_of ds).

(** Characters that would carry a literal on after its digits. *)
Definition carries_on (c : ascii) : bool :=
  Ascii.eqb c "." || Ascii.eqb (Std.tolower c) "e" || Ascii.eqb (Std.tolower c) "x".

(** [s] is white space, an optional sign, a decimal floating literal and
    a rest that does not continue it.  The literal has integer digits
    [ip], fraction digits [fp] (at least one digit in all) and an
    optional exponent; it denotes [m * 10 ^ k] with the sign [neg]. *)
Definition decimal_text (s : string) (neg : bool) (m k : Z) : Prop :=
  exists ws sg ip frac fp ex E rest,
    s = ws +:+ sg +:+ ip +:+ frac +:+ ex +:+ rest /\
    all_chars Std.isspace ws = true /\
    sign_text sg neg /\
    all_chars Std.isdigit ip = true /\
    fraction_text frac fp /\
    ip +:+ fp <> EmptyString /\
    exponent_text ex E /\
    starts_with Std.isdigit rest = false /\
    (ex = EmptyString -> starts_with carries_on rest = false) /\
    m = value_of (ip +:+ fp) /\
    k = E - Z.of_nat (String.length fp).

(** The ratio [p / q] that is [m * 10 ^ k] with the sign [neg]. *)
Definition ratio (neg : bool) (m k : Z) : Z * Z :=
  let p := if neg then - m else m in
  if 0 <=? k then (p * 10 ^ k, 1) else (p, 10 ^ (- k)).

(** Whether the ratio [p / q] lies, in magnitude, between the least
    normal double [2 ^ -1022] and [2 ^ 1023]. *)
Definition in_normal_range (pq : Z * Z) : Prop :=
  pq.2 <= Z.abs pq.1 * 2 ^ 1022 /\ Z.abs pq.1 < pq.2 * 2 ^ 1023.

Definition is_finite (d : Std.double) : bool :=
  match d with
  | S754_zero _ | S754_finite _ _ _ => true
  | _ => false
  end.

(** The value of a finite double counted in units of [2 ^ -1074], the
    least positive double; every valid double is a whole number of
    them. *)
Definition units (d : Std.double) : Z :=
  match d with
  | S754_finite s m e => (if s then Zneg m else Zpos m) * 2 ^ (e + 1074)
  | _ => 0
  end.

(** [d] is a double nearest to the ratio [p / q]: it is a valid finite
    double and no valid finite double is nearer.  Distances are in
    units of [2 ^ -1074] and multiplied by the positive [q]. *)
Definition nearest (d : Std.double) (pq : Z * Z) : Prop :=
  is_finite d = true /\
  valid_binary Std.prec Std.emax d = true /\
  forall d',
    is_finite d' = true -> valid_binary Std.prec Std.emax d' = true ->
    Z.abs (pq.1 * 2 ^ 1074 - pq.2 * units d)
    <= Z.abs (pq.1 * 2 ^ 1074 - pq.2 * units d').

(** The decimal digits of a numeral, most significant first. *)
Definition digits_of (t : string) : list Z :=
  map (fun c => default 0 (Std.digit_val c)) (list_ascii_of_string t).

(** The result [r] is what the stored strings [vs] of an accessor's
    keys denote at the accessor's type:
    - a text accessor returns the stored string, the version its two
      parts around a dot;
    - a flag accessor returns a boolean that is true exactly for the
      flag's digit: 0 for the password flag (no bad password), 1 for
      the audio flag;
    - an integer accessor returns the [int] that the longest numeric
      prefix of the text denotes;
    - a real accessor returns, for decimal text with zero digits, the
      zero of the text's sign, and for decimal text in the normal
      range a double nearest to the number denoted. *)
Definition reads (a : Accessor.name) (vs : list string)
    (r : Std.res Accessor.value) : Prop :=
  match a, vs with
  | (Accessor.client_public_ip | Accessor.cfg), [v] =>
      r = Std.Ok (Accessor.VString v)
  | Accessor.version, [maj; min] =>
      r = Std.Ok (Accessor.VString (maj +:+ "." +:+ min))
  | Accessor.password_ok, [v] =>
      exists f, r = Std.Ok (Accessor.VBool f) /\ (f = true <-> v = "0"%string)
  | Accessor.audio_initialized, [v] =>
      exists f, r = Std.Ok (Accessor.VBool f) /\ (f = true <-> v = "1"%string)
  | (Accessor.rx_chans | Accessor.chan_no_pwd), [v] =>
      forall z, int_prefix v z -> r = Std.Ok (Accessor.VInt z)
  | (Accessor.audio_rate | Accessor.sample_rate | Accessor.center_freq
     | Accessor.bandwidth | Accessor.adc_clk_nom), [v] =>
      forall neg m k,
        decimal_text v neg m k ->
        (m = 0 -> r = Std.Ok (Accessor.VDouble (S754_zero neg))) /\
        (0 < m -> in_normal_range (ratio neg m k) ->
         exists d, r = Std.Ok (Accessor.VDouble d) /\ nearest d (ratio neg m k))
  | _, _ => False
  end.

End Real.

(** ** Facts about the library model *)
Module StdFacts.
Import Std Reading.

Lemma space_is_no_digit c : isspace c = true -> digit_val c = None.
Proof. destruct c as [[] [] [] [] [] [] [] []]; simpl; intros H; try discriminate H; reflexivity. Qed.

Lemma space_is_no_sign c s : isspace c = true -> take_sign (String c s) = (false, String c s).
Proof. destruct c as [[] [] [] [] [] [] [] []]; simpl; intros H; try discriminate H; reflexivity. Qed.

Lemma digit_is_no_space c : isdigit c = true -> isspace c = false.
Proof. destruct c as [[] [] [] [] [] [] [] []]; simpl; intros H; try discriminate H; reflexivity. Qed.

Lemma digit_is_no_sign c s : isdigit c = true -> take_sign (String c s) = (false, String c s).
Proof. destruct c as [[] [] [] [] [] [] [] []]; simpl; intros H; try discriminate H; reflexivity. Qed.

Lemma digit_val_range c d : digit_val c = Some d -> 0 <= d <= 9.
Proof.
  unfold digit_val. intros H.
  destruct ((48 <=? Z.of_N (N_of_ascii c)) && (Z.of_N (N_of_ascii c) <=? 57)) eqn:E;
    [|discriminate].
  apply andb_true_iff in E. destruct E as [E1 E2].
  apply Z.leb_le in E1, E2. injection H as <-. lia.
Qed.

Lemma append_cons c s t : String c s +:+ t = String c (s +:+ t).
Proof. reflexivity. Qed.

Lemma append_empty t : EmptyString +:+ t = t.
Proof. reflexivity. Qed.

Lemma append_assoc s t u : (s +:+ t) +:+ u = s +:+ t +:+ u.
Proof.
  induction s as [|c s IH]; [reflexivity|].
  rewrite !append_cons. by f_equal.
Qed.

(** [skip_space] removes exactly a run of white space. *)
Lemma skip_space_split s :
  exists ws, s = ws +:+ skip_space s /\ all_chars isspace ws = true /\
             starts_with isspace (skip_space s) = false.
Proof.
  induction s as [|c s IH]; simpl.
  - exists EmptyString. auto.
  - destruct (isspace c) eqn:E.
    + destruct IH as (ws & Hs & Hws & Hn). exists (String c ws).
      split; [rewrite append_cons; f_equal; exact Hs|]. split; [|assumption].
      unfold all_chars in *. simpl. rewrite E. exact Hws.
    + exists EmptyString. simpl. rewrite E. auto.
Qed.

Lemma skip_space_app ws t :
  all_chars isspace ws = true -> starts_with isspace t = false ->
  skip_space (ws +:+ t) = t.
Proof.
  unfold all_chars. induction ws as [|c ws IH]; simpl; intros Hws Ht.
  - rewrite ?append_empty.
    destruct t as [|c t]; simpl in *; [reflexivity|]. rewrite Ht. reflexivity.
  - apply andb_true_iff in Hws. destruct Hws as [Hc Hws].
    rewrite ?append_cons. simpl. rewrite Hc. auto.
Qed.

Lemma take_sign_split s neg t :
  take_sign s = (neg, t) -> exists sg, s = sg +:+ t /\ sign_text sg neg.
Proof.
  destruct s as [|c s]; simpl.
  - intros [= <- <-]. exists EmptyString. split; [reflexivity|constructor].
  - destruct c as [[] [] [] [] [] [] [] []]; simpl; intros [= <- <-];
      first [ by (exists "-"%string; split; [reflexivity|constructor])
            | by (exists "+"%string; split; [reflexivity|constructor])
            | by (exists EmptyString; split; [reflexivity|constructor]) ].
Qed.

Lemma take_sign_app sg neg t :
  sign_text sg neg -> starts_with isdigit t = true ->
  take_sign (sg +:+ t) = (neg, t).
Proof.
  intros Hsg Ht. destruct Hsg; rewrite ?append_cons, ?append_empty; try reflexivity.
  destruct t as [|c t]; simpl in *; [discriminate|].
  by apply digit_is_no_sign.
Qed.

(** The accumulator of [radix_value] is a shift of the high digits. *)
Lemma fold_radix base ds acc :
  fold_left (fun a d => base * a + d) ds acc =
  acc * base ^ Z.of_nat (length ds) + radix_value base ds.
Proof.
  unfold radix_value. revert acc.
  induction ds as [|d ds IH]; intros acc.
  - simpl. lia.
  - cbn [fold_left length]. rewrite IH, (IH (base * 0 + d)).
    rewrite Nat2Z.inj_succ, Z.pow_succ_r by lia. ring.
Qed.

Lemma decimal_cons d ds :
  decimal (d :: ds) = d * 10 ^ Z.of_nat (length ds) + decimal ds.
Proof.
  unfold decimal, radix_value at 1. cbn [fold_left].
  rewrite fold_radix. unfold radix_value. ring.
Qed.

(** [take_digits] removes exactly the longest run of digits, and
    [decimal] reads it in positional notation. *)
Lemma take_digits_split s ds rest :
  take_digits s = (ds, rest) ->
  exists t, s = t +:+ rest /\ all_chars isdigit t = true /\
            starts_with isdigit rest = false /\
            length ds = String.length t /\ decimal ds = value_of t.
Proof.
  unfold take_digits. revert ds rest.
  induction s as [|c s IH]; intros ds rest; simpl.
  - intros [= <- <-]. exists EmptyString. auto.
  - destruct (digit_val c) as [d|] eqn:E.
    + destruct (take_run digit_val s) as [ds' rest'] eqn:Er.
      intros [= <- <-].
      destruct (IH _ _ eq_refl) as (t & Hs & Ht & Hr & Hl & Hv).
      exists (String c t). rewrite append_cons. split; [by f_equal|].
      split; [unfold all_chars in *; simpl; unfold isdigit at 1; by rewrite E|].
      split; [assumption|]. split; [simpl; by f_equal|].
      rewrite decimal_cons. simpl. rewrite E, Hl, Hv. reflexivity.
    + intros [= <- <-]. exists EmptyString. rewrite append_empty.
      simpl. unfold isdigit. rewrite E. auto.
Qed.

Lemma take_digits_app t rest :
  all_chars isdigit t = true -> starts_with isdigit rest = false ->
  exists ds, take_digits (t +:+ rest) = (ds, rest) /\
             length ds = String.length t /\ decimal ds = value_of t.
Proof.
  unfold take_digits, all_chars. intros Ht Hr.
  induction t as [|c t IH]; simpl in Ht.
  - exists []. rewrite append_empty. split; [|by auto].
    destruct rest as [|c r]; [reflexivity|]. simpl in *.
    unfold isdigit in Hr. by destruct (digit_val c).
  - apply andb_true_iff in Ht. destruct Ht as [Hc Ht].
    destruct (IH Ht) as (ds & Hd & Hl & Hv).
    unfold isdigit in Hc. destruct (digit_val c) as [d|] eqn:E; [|discriminate].
    exists (d :: ds). rewrite append_cons. simpl. rewrite E, Hd.
    split; [reflexivity|]. split; [by f_equal|].
    rewrite decimal_cons, Hl, Hv. reflexivity.
Qed.

Lemma int_within_long z : INT_MIN <= z <= INT_MAX -> LONG_MIN <= z <= LONG_MAX.
Proof. unfold INT_MIN, INT_MAX, LONG_MIN, LONG_MAX. lia. Qed.

(** What [stoi] returns is the longest numeric prefix, read as an int. *)
Lemma stoi_sound s z : stoi s = Ok z -> int_prefix s z.
Proof.
  unfold stoi, strtol.
  destruct (skip_space_split s) as (ws & Hs & Hws & _).
  destruct (take_sign (skip_space s)) as [neg s1] eqn:Esg.
  destruct (take_sign_split _ _ _ Esg) as (sg & Hs1 & Hsg).
  destruct (take_digits s1) as [ds rest] eqn:Ed.
  destruct (take_digits_split _ _ _ Ed) as (t & Hs2 & Ht & Hr & Hl & Hv).
  destruct ds as [|d ds]; [discriminate|].
  set (v := if neg then - decimal (d :: ds) else decimal (d :: ds)).
  destruct (v <? LONG_MIN) eqn:E1; [discriminate|].
  destruct (LONG_MAX <? v) eqn:E2; [discriminate|].
  cbn [sl_converted sl_erange sl_value negb orb].
  destruct (v <? INT_MIN) eqn:E3; [discriminate|].
  destruct (INT_MAX <? v) eqn:E4; [discriminate|].
  intros [= <-]. apply Z.ltb_ge in E3, E4. split; [|lia].
  exists ws, sg, neg, t, rest. repeat split; try assumption.
  - rewrite Hs at 1. rewrite Hs1, Hs2. reflexivity.
  - intros ->. discriminate Hl.
  - subst v. rewrite Hv. reflexivity.
Qed.

Lemma numeric_prefix_strtol s z :
  numeric_prefix s z ->
  strtol s =
    if z <? LONG_MIN then mk_strtol LONG_MIN true true
    else if LONG_MAX <? z then mk_strtol LONG_MAX true true
    else mk_strtol z true false.
Proof.
  intros (ws & sg & neg & t & rest & -> & Hws & Hsg & Hne & Ht & Hr & ->).
  destruct (take_digits_app t rest Ht Hr) as (ds & Hd & Hl & Hv).
  assert (Hdig : starts_with isdigit (t +:+ rest) = true).
  { destruct t as [|c t]; [contradiction|]. unfold all_chars in Ht.
    simpl in Ht. apply andb_true_iff in Ht. apply Ht. }
  assert (Hsp : starts_with isspace (sg +:+ t +:+ rest) = false).
  { destruct Hsg; rewrite ?append_cons, ?append_empty; try reflexivity.
    destruct t as [|c t]; [contradiction|]. simpl in *.
    by apply digit_is_no_space. }
  unfold strtol. rewrite (skip_space_app _ _ Hws Hsp).
  rewrite (take_sign_app _ _ _ Hsg Hdig), Hd.
  destruct ds as [|d ds]; [|by rewrite Hv].
  destruct t; [contradiction|discriminate].
Qed.

Lemma stoi_complete s z : int_prefix s z -> stoi s = Ok z.
Proof.
  intros [Hp Hz]. unfold stoi. rewrite (numeric_prefix_strtol _ _ Hp).
  pose proof (int_within_long _ Hz) as Hl.
  destruct (z <? LONG_MIN) eqn:E1; [apply Z.ltb_lt in E1; lia|].
  destruct (LONG_MAX <? z) eqn:E2; [apply Z.ltb_lt in E2; lia|].
  cbn [sl_converted sl_erange sl_value negb orb].
  destruct (z <? INT_MIN) eqn:E3; [apply Z.ltb_lt in E3; lia|].
  destruct (INT_MAX <? z) eqn:E4; [apply Z.ltb_lt in E4; lia|].
  reflexivity.
Qed.

(** [stoi] fails exactly when no prefix reads as an int. *)
Lemma stoi_fails_iff s : returns (stoi s) = false <-> ~ exists z, int_prefix s z.
Proof.
  split.
  - intros Hf [z Hz]. rewrite (stoi_complete _ _ Hz) in Hf. discriminate.
  - intros Hn. destruct (stoi s) as [z|e] eqn:E; [|reflexivity].
    exfalso. apply Hn. exists z. by apply stoi_sound.
Qed.

Example stoi_negative : stoi " -12x" = Ok (-12).
Proof. reflexivity. Qed.

Example stoi_no_digits : stoi "abc" = Throw (invalid_argument "stoi").
Proof. reflexivity. Qed.

Example stoi_too_large : stoi "99999999999" = Throw (out_of_range "stoi").
Proof. reflexivity. Qed.

Example stod_tenth : stod "0.1" = Ok (S754_finite false 7205759403792794 (-56)).
Proof. vm_compute. reflexivity. Qed.

Example stod_exponent : stod "1.2e4" = stod "12000".
Proof. vm_compute. reflexivity. Qed.

Example stod_overflow : stod "1e309" = Throw (out_of_range "stod").
Proof. vm_compute. reflexivity. Qed.

Example stod_no_digits : stod "." = Throw (invalid_argument "stod").
Proof. vm_compute. reflexivity. Qed.

(** The two ways to fail: no numeral at all, or a numeral that is not
    an int. *)
Lemma stoi_throws s e :
  stoi s = Throw e ->
  (e = invalid_argument "stoi" /\ ~ exists z, numeric_prefix s z) \/
  (e = out_of_range "stoi" /\
   exists z, numeric_prefix s z /\ ~ INT_MIN <= z <= INT_MAX).
Proof.
  intros He.
  destruct (sl_converted (strtol s)) eqn:Ec.
  - right. unfold stoi in He. rewrite Ec in He. simpl in He.
    destruct (sl_erange (strtol s) || (sl_value (strtol s) <? INT_MIN)
              || (INT_MAX <? sl_value (strtol s))) eqn:Er; [|discriminate].
    injection He as <-. split; [reflexivity|].
    revert Ec Er. unfold strtol.
    destruct (skip_space_split s) as (ws & Hs & Hws & _).
    destruct (take_sign (skip_space s)) as [neg s1] eqn:Esg.
    destruct (take_sign_split _ _ _ Esg) as (sg & Hs1 & Hsg).
    destruct (take_digits s1) as [ds rest] eqn:Ed.
    destruct (take_digits_split _ _ _ Ed) as (t & Hs2 & Ht & Hr & Hl & Hv).
    destruct ds as [|d ds]; [discriminate|]. intros _.
    set (v := if neg then - decimal (d :: ds) else decimal (d :: ds)).
    intros Er. exists v. split.
    + exists ws, sg, neg, t, rest. repeat split; try assumption.
      * rewrite Hs at 1. rewrite Hs1, Hs2. reflexivity.
      * intros ->. discriminate Hl.
      * subst v. rewrite Hv. reflexivity.
    + unfold INT_MIN, INT_MAX, LONG_MIN, LONG_MAX in *.
      destruct (v <? - 2 ^ 63) eqn:E1; [apply Z.ltb_lt in E1; lia|].
      destruct (2 ^ 63 - 1 <? v) eqn:E2; [apply Z.ltb_lt in E2; lia|].
      cbn [sl_erange sl_value orb] in Er.
      apply orb_true_iff in Er. destruct Er as [Er|Er]; apply Z.ltb_lt in Er; lia.
  - left. unfold stoi in He. rewrite Ec in He. simpl in He.
    injection He as <-. split; [reflexivity|].
    intros [z Hz]. rewrite (numeric_prefix_strtol _ _ Hz) in Ec.
    destruct (z <? LONG_MIN); [discriminate|].
    destruct (LONG_MAX <? z); discriminate.
Qed.

End StdFacts.

(** ** Facts about the status registry *)
Module RegistryFacts.
Import Std Kiwisdr Accessor.

Lemma at_present m k v : m !! k = Some v -> at_ m k = Ok v.
Proof. unfold at_. by intros ->. Qed.

Lemma at_absent m k : m !! k = None -> at_ m k = Throw MissingKey.
Proof. unfold at_. by intros ->. Qed.

Lemma later_found k response o v :
  fold_left (later k) response None = Some v ->
  fold_left (later k) response o = Some v.
Proof.
  revert o. induction response as [|kv response IH]; intros o; simpl.
  - discriminate.
  - unfold later at 2 4. destruct (decide (kv.1 = k)); [done|]. apply IH.
Qed.

(** Looking a key up after a response has been stored. *)
Lemma lookup_fold_set response m k :
  fold_left set response m !! k = fold_left (later k) response (m !! k).
Proof.
  revert m. induction response as [|kv response IH]; intros m; simpl.
  - reflexivity.
  - rewrite IH. f_equal. unfold set, later.
    rewrite lookup_insert. destruct (decide (kv.1 = k)); reflexivity.
Qed.

Lemma lookup_on_status {sample} (b : kiwisdr_impl sample) response k v :
  field response k = Some v -> _msg (on_status b response) !! k = Some v.
Proof.
  intros H. unfold on_status. simpl. rewrite lookup_fold_set.
  by apply later_found.
Qed.

End RegistryFacts.

(** ** Facts about decimal text *)
Module RealFacts.
Import Std Reading Real StdFacts.

Lemma append_empty_r s : s +:+ EmptyString = s.
Proof. induction s as [|c s IH]; [reflexivity|]. rewrite append_cons. by f_equal. Qed.

Lemma length_append s t :
  String.length (s +:+ t) = (String.length s + String.length t)%nat.
Proof.
  induction s as [|c s IH]; [reflexivity|]. rewrite append_cons. simpl. by f_equal.
Qed.

Lemma all_chars_append P s t :
  all_chars P (s +:+ t) = all_chars P s && all_chars P t.
Proof.
  unfold all_chars. induction s as [|c s IH]; [reflexivity|].
  rewrite append_cons. simpl. rewrite IH. by rewrite andb_assoc.
Qed.

Lemma digit_is_no_mark c :
  isdigit c = true ->
  Ascii.eqb c "." = false /\ Ascii.eqb (tolower c) "e" = false /\
  Ascii.eqb (tolower c) "x" = false /\ Ascii.eqb "i" (tolower c) = false /\
  Ascii.eqb "n" (tolower c) = false.
Proof.
  destruct c as [[] [] [] [] [] [] [] []]; simpl; intros H;
    try discriminate H; repeat split; reflexivity.
Qed.

Lemma point_is_no_digit : digit_val "." = None.
Proof. reflexivity. Qed.

Lemma digits_of_cons c t :
  digits_of (String c t) = default 0 (digit_val c) :: digits_of t.
Proof. reflexivity. Qed.

Lemma digits_of_append t u : digits_of (t +:+ u) = digits_of t ++ digits_of u.
Proof.
  induction t as [|c t IH]; [reflexivity|].
  rewrite append_cons, !digits_of_cons, IH. reflexivity.
Qed.

Lemma length_digits_of t : length (digits_of t) = String.length t.
Proof.
  induction t as [|c t IH]; [reflexivity|]. rewrite digits_of_cons. simpl. by f_equal.
Qed.

Lemma decimal_digits_of t : decimal (digits_of t) = value_of t.
Proof.
  induction t as [|c t IH]; [reflexivity|].
  rewrite digits_of_cons, decimal_cons, IH, length_digits_of. reflexivity.
Qed.

(** A run of digits followed by something else is taken whole. *)
Lemma take_run_digits t rest :
  all_chars isdigit t = true -> starts_with isdigit rest = false ->
  take_run digit_val (t +:+ rest) = (digits_of t, rest).
Proof.
  unfold all_chars. intros Ht Hr. induction t as [|c t IH].
  - rewrite append_empty. destruct rest as [|c r]; [reflexivity|].
    simpl in *. unfold isdigit in Hr. by destruct (digit_val c).
  - cbn [list_ascii_of_string forallb] in Ht.
    apply andb_true_iff in Ht. destruct Ht as [Hc Ht].
    rewrite append_cons, digits_of_cons. cbn [take_run].
    unfold isdigit in Hc. destruct (digit_val c) as [d|]; [|discriminate].
    by rewrite (IH Ht).
Qed.

Lemma starts_with_append P t u :
  t <> EmptyString -> starts_with P (t +:+ u) = starts_with P t.
Proof. destruct t; [done|]. by rewrite append_cons. Qed.

Lemma starts_with_digits t :
  t <> EmptyString -> all_chars isdigit t = true -> starts_with isdigit t = true.
Proof.
  destruct t as [|c t]; [done|]. unfold all_chars. simpl.
  intros _ H. apply andb_true_iff in H. apply H.
Qed.

Lemma take_sign_mantissa sg neg t :
  sign_text sg neg ->
  starts_with (fun c => isdigit c || Ascii.eqb c ".") t = true ->
  take_sign (sg +:+ t) = (neg, t) /\ starts_with isspace (sg +:+ t) = false.
Proof.
  intros Hsg Ht. destruct Hsg; rewrite ?append_cons, ?append_empty;
    try (split; reflexivity).
  destruct t as [|c t]; [discriminate|]. cbn [starts_with] in *.
  destruct c as [[] [] [] [] [] [] [] []]; try discriminate Ht;
    split; reflexivity.
Qed.

Lemma no_word_at_mantissa t :
  starts_with (fun c => isdigit c || Ascii.eqb c ".") t = true ->
  starts_with_ci "inf" t = false /\ starts_with_ci "nan" t = false.
Proof.
  destruct t as [|c t]; [discriminate|]. cbn [starts_with].
  destruct c as [[] [] [] [] [] [] [] []]; intros H; try discriminate H;
    split; reflexivity.
Qed.

Lemma strtod_hex_none neg c t :
  starts_with (fun x => Ascii.eqb (tolower x) "x") t = false ->
  strtod_hex neg (String c t) = None.
Proof.
  destruct t as [|x t]; intros H.
  - destruct c as [[] [] [] [] [] [] [] []]; reflexivity.
  - cbn [starts_with] in H. unfold strtod_hex.
    destruct c as [[] [] [] [] [] [] [] []]; try reflexivity.
    by rewrite H.
Qed.

Lemma take_mantissa_whole ip tail :
  all_chars isdigit ip = true -> starts_with isdigit tail = false ->
  starts_with (fun c => Ascii.eqb c ".") tail = false ->
  take_mantissa digit_val (ip +:+ tail) = (digits_of ip, [], tail).
Proof.
  intros Hip Hd Hp. unfold take_mantissa. rewrite (take_run_digits _ _ Hip Hd).
  destruct tail as [|c tail]; [reflexivity|]. cbn [starts_with] in Hp.
  destruct c as [[] [] [] [] [] [] [] []]; try discriminate Hp; reflexivity.
Qed.

Lemma take_mantissa_point ip fp tail :
  all_chars isdigit ip = true -> all_chars isdigit fp = true ->
  starts_with isdigit tail = false ->
  take_mantissa digit_val (ip +:+ String "." fp +:+ tail) =
  (digits_of ip, digits_of fp, tail).
Proof.
  intros Hip Hfp Hd. unfold take_mantissa. rewrite append_cons.
  rewrite (take_run_digits ip _ Hip) by reflexivity.
  by rewrite (take_run_digits fp _ Hfp Hd).
Qed.

Lemma take_exponent_none s :
  starts_with (fun c => Ascii.eqb (tolower c) "e") s = false ->
  take_exponent "e" s = 0.
Proof.
  destruct s as [|c s]; [reflexivity|]. cbn [starts_with take_exponent].
  by intros ->.
Qed.

Lemma take_exponent_text ex E rest :
  exponent_text ex E -> starts_with isdigit rest = false ->
  (ex = EmptyString -> starts_with carries_on rest = false) ->
  take_exponent "e" (ex +:+ rest) = E.
Proof.
  intros Hex Hd Hm. destruct Hex as [|c sg neg ds Hc Hsg Hne Hds].
  - rewrite append_empty. apply take_exponent_none.
    specialize (Hm eq_refl). destruct rest as [|c r]; [reflexivity|].
    cbn [starts_with] in *. unfold carries_on in Hm.
    apply orb_false_iff in Hm. destruct Hm as [Hm _].
    apply orb_false_iff in Hm. apply Hm.
  - rewrite append_cons, append_assoc. cbn [take_exponent]. rewrite Hc.
    cbn [Ascii.eqb Bool.eqb].
    rewrite (take_sign_app sg neg (ds +:+ rest) Hsg).
    2:{ rewrite starts_with_append by done. by apply starts_with_digits. }
    unfold take_digits. rewrite (take_run_digits ds rest Hds Hd).
    rewrite decimal_digits_of.
    destruct ds as [|d ds]; [done|]. reflexivity.
Qed.

Lemma text_starts_mantissa ip frac fp tail :
  all_chars isdigit ip = true -> fraction_text frac fp ->
  ip +:+ fp <> EmptyString ->
  starts_with (fun c => isdigit c || Ascii.eqb c ".") (ip +:+ frac +:+ tail) = true.
Proof.
  intros Hip Hf Hne. destruct ip as [|c ip].
  - rewrite append_empty in *. destruct Hf; [done|]. reflexivity.
  - rewrite append_cons. cbn [starts_with]. unfold all_chars in Hip. simpl in Hip.
    apply andb_true_iff in Hip. destruct Hip as [-> _]. reflexivity.
Qed.

(** The second character of a decimal numeral is no hexadecimal mark. *)
Lemma text_second_no_x ip frac fp ex E rest c t :
  all_chars isdigit ip = true -> fraction_text frac fp ->
  ip +:+ fp <> EmptyString -> exponent_text ex E ->
  (ex = EmptyString -> starts_with carries_on rest = false) ->
  ip +:+ frac +:+ ex +:+ rest = String c t ->
  starts_with (fun x => Ascii.eqb (tolower x) "x") t = false.
Proof.
  intros Hip Hf Hne Hex Hm Hs.
  assert (Htail : starts_with (fun x => Ascii.eqb (tolower x) "x")
                    (frac +:+ ex +:+ rest) = false).
  { destruct Hf as [|fp Hfp]; [|reflexivity]. rewrite append_empty.
    destruct Hex as [|e sg neg ds He]. 
    - rewrite append_empty. specialize (Hm eq_refl).
      destruct rest as [|r rest]; [reflexivity|]. cbn [starts_with] in *.
      unfold carries_on in Hm. apply orb_false_iff in Hm. apply Hm.
    - rewrite append_cons. cbn [starts_with].
      destruct (tolower e) as [[] [] [] [] [] [] [] []]; try discriminate He.
      reflexivity. }
  destruct ip as [|a ip].
  - rewrite append_empty in Hs, Hne. destruct Hf as [|fp Hfp]; [done|].
    rewrite append_cons in Hs. injection Hs as <- <-.
    destruct fp as [|d fp]; [done|]. rewrite append_cons. cbn [starts_with].
    unfold all_chars in Hfp. simpl in Hfp. apply andb_true_iff in Hfp.
    destruct Hfp as [Hd _]. apply (digit_is_no_mark d Hd).
  - rewrite append_cons in Hs. injection Hs as <- <-.
    destruct ip as [|d ip]; [by rewrite append_empty|].
    rewrite append_cons. cbn [starts_with].
    unfold all_chars in Hip. simpl in Hip. apply andb_true_iff in Hip.
    destruct Hip as [_ Hip]. apply andb_true_iff in Hip. destruct Hip as [Hd _].
    apply (digit_is_no_mark d Hd).
Qed.

(** [strtod] on decimal text: the digits as an integer, scaled by the
    power of ten the exponent and the fraction's length give. *)
Lemma strtod_decimal_text s neg m k :
  decimal_text s neg m k -> strtod s = scaled neg false m k.
Proof.
  intros (ws & sg & ip & frac & fp & ex & E & rest & -> & Hws & Hsg & Hip & Hf &
          Hne & Hex & Hd & Hm & -> & ->).
  pose proof (text_starts_mantissa ip frac fp (ex +:+ rest) Hip Hf Hne) as Hst.
  destruct (take_sign_mantissa sg neg _ Hsg Hst) as [Hts Hsp].
  destruct (no_word_at_mantissa _ Hst) as [Hinf Hnan].
  unfold strtod. rewrite (skip_space_app _ _ Hws Hsp), Hts, Hinf, Hnan.
  destruct (ip +:+ frac +:+ ex +:+ rest) as [|c t] eqn:Hs1; [discriminate Hst|].
  rewrite (strtod_hex_none neg c t
             (text_second_no_x ip frac fp ex E rest c t Hip Hf Hne Hex Hm Hs1)).
  rewrite <- Hs1. clear Hs1 Hst Hts Hsp Hinf Hnan c t.
  assert (Hfp : all_chars isdigit fp = true) by (destruct Hf; done).
  assert (Hmant : take_mantissa digit_val (ip +:+ frac +:+ ex +:+ rest) =
                  (digits_of ip, digits_of fp, ex +:+ rest)).
  { assert (Hde : starts_with isdigit (ex +:+ rest) = false).
    { destruct Hex as [|e sg' neg' ds He]; [by rewrite append_empty|].
      rewrite append_cons. cbn [starts_with].
      destruct e as [[] [] [] [] [] [] [] []]; try discriminate He; reflexivity. }
    destruct Hf as [|fp' Hfp'].
    - rewrite append_empty. apply take_mantissa_whole; [done..|].
      destruct Hex as [|e sg' neg' ds He].
      + rewrite append_empty. specialize (Hm eq_refl).
        destruct rest as [|r rest]; [reflexivity|]. cbn [starts_with] in *.
        unfold carries_on in Hm. apply orb_false_iff in Hm. destruct Hm as [Hm _].
        apply orb_false_iff in Hm. apply Hm.
      + rewrite append_cons. cbn [starts_with].
        destruct e as [[] [] [] [] [] [] [] []]; try discriminate He; reflexivity.
    - rewrite append_cons. by apply take_mantissa_point. }
  unfold strtod_decimal. rewrite Hmant.
  rewrite (take_exponent_text ex E rest Hex Hd Hm).
  rewrite <- digits_of_append, length_digits_of.
  destruct (digits_of (ip +:+ fp)) as [|d ds] eqn:Hds.
  - apply (f_equal (@length Z)) in Hds. rewrite length_digits_of in Hds.
    destruct (ip +:+ fp); [done|discriminate].
  - rewrite <- Hds, decimal_digits_of. reflexivity.
Qed.

(** *** Scaling by powers of two *)

Lemma pow2_pos a : 0 <= a -> 0 < 2 ^ a.
Proof. intros. by apply Z.pow_pos_nonneg. Qed.

(** Comparisons of [x * 2 ^ a] with [y * 2 ^ b] depend on [a - b] only. *)
Lemma scaled_le_shift x y a b a' b' :
  0 <= a -> 0 <= b -> 0 <= a' -> 0 <= b' -> a - b = a' - b' ->
  x * 2 ^ a <= y * 2 ^ b -> x * 2 ^ a' <= y * 2 ^ b'.
Proof.
  intros Ha Hb Ha' Hb' Hd H.
  pose proof (pow2_pos b Hb) as Pb.
  apply (Z.mul_le_mono_pos_r _ _ (2 ^ b)); [done|].
  rewrite <- !Z.mul_assoc, <- !Z.pow_add_r by done.
  replace (a' + b) with (a + b') by lia. replace (b' + b) with (b + b') by lia.
  rewrite !Z.pow_add_r, !Z.mul_assoc by done.
  apply Z.mul_le_mono_nonneg_r; [pose proof (pow2_pos b' Hb'); lia|done].
Qed.

Lemma scaled_lt_shift x y a b a' b' :
  0 <= a -> 0 <= b -> 0 <= a' -> 0 <= b' -> a - b = a' - b' ->
  x * 2 ^ a < y * 2 ^ b -> x * 2 ^ a' < y * 2 ^ b'.
Proof.
  intros Ha Hb Ha' Hb' Hd H.
  pose proof (pow2_pos b Hb) as Pb.
  apply (Z.mul_lt_mono_pos_r (2 ^ b)); [done|].
  rewrite <- !Z.mul_assoc, <- !Z.pow_add_r by done.
  replace (a' + b) with (a + b') by lia. replace (b' + b) with (b + b') by lia.
  rewrite !Z.pow_add_r, !Z.mul_assoc by done.
  apply Z.mul_lt_mono_pos_r; [by apply pow2_pos|done].
Qed.

Lemma over_power_eq p q k :
  exists a b, 0 <= a /\ 0 <= b /\ a - b = k /\
              over_power p q k = (p * 2 ^ b, q * 2 ^ a).
Proof.
  unfold over_power. destruct (Z.leb_spec 0 k).
  - exists k, 0. rewrite Z.mul_1_r. repeat split; lia.
  - exists 0, (- k). rewrite Z.mul_1_r. repeat split; lia.
Qed.

(** The exponent of the leading bit: [2 ^ e <= p / q < 2 ^ (e + 1)]. *)
Lemma leading_exponent_spec p q :
  0 < p -> 0 < q ->
  exists a b, 0 <= a /\ 0 <= b /\ a - b = leading_exponent p q /\
              q * 2 ^ a <= p * 2 ^ b < 2 * (q * 2 ^ a).
Proof.
  intros Hp Hq. unfold leading_exponent.
  destruct (Z.log2_spec p Hp) as [Hp1 Hp2].
  destruct (Z.log2_spec q Hq) as [Hq1 Hq2].
  pose proof (Z.log2_nonneg p) as Lp. pose proof (Z.log2_nonneg q) as Lq.
  set (lp := Z.log2 p) in *. set (lq := Z.log2 q) in *.
  destruct (over_power_eq p q (lp - lq)) as (a & b & Ha & Hb & Hd & ->).
  assert (Hlt : p * 2 ^ b < 2 * (q * 2 ^ a)).
  { apply Z.lt_le_trans with (2 ^ Z.succ lp * 2 ^ b).
    - apply Z.mul_lt_mono_pos_r; [by apply pow2_pos|done].
    - rewrite <- Z.pow_add_r by lia. replace (Z.succ lp + b) with (1 + (lq + a)) by lia.
      rewrite Z.pow_add_r, Z.pow_add_r by lia. change (2 ^ 1) with 2.
      apply Z.mul_le_mono_nonneg_l; [lia|].
      apply Z.mul_le_mono_nonneg_r; [pose proof (pow2_pos a Ha); lia|done]. }
  assert (Hle : q * 2 ^ a <= p * 2 ^ (b + 1)).
  { apply Z.le_trans with (2 ^ Z.succ lq * 2 ^ a).
    - apply Z.mul_le_mono_nonneg_r; [pose proof (pow2_pos a Ha); lia|lia].
    - rewrite <- Z.pow_add_r by lia. replace (Z.succ lq + a) with (lp + (b + 1)) by lia.
      rewrite Z.pow_add_r by lia.
      apply Z.mul_le_mono_nonneg_r; [pose proof (pow2_pos (b + 1)); lia|done]. }
  destruct (Z.leb_spec (q * 2 ^ a) (p * 2 ^ b)) as [H|H].
  - exists a, b. repeat split; try lia.
  - exists a, (b + 1). split; [done|]. split; [lia|]. split; [lia|].
    split; [done|]. rewrite Z.pow_add_r by lia. change (2 ^ 1) with 2. lia.
Qed.

(** The leading bits of a ratio: 53 bits of mantissa, nearest-even
    information about what follows. *)
Lemma leading_spec p q :
  0 < p -> 0 < q ->
  exists a b n m,
    0 <= a /\ 0 <= b /\ a - b = leading_exponent p q - 52 /\
    n = p * 2 ^ b /\ m = q * 2 ^ a /\
    m * 2 ^ 52 <= n < m * 2 ^ 53 /\
    leading p q = mk_bits (leading_exponent p q) (n / m) (m <=? 2 * (n mod m))
                    (negb ((n mod m =? 0) || (2 * (n mod m) =? m))).
Proof.
  intros Hp Hq.
  destruct (leading_exponent_spec p q Hp Hq) as (a0 & b0 & Ha0 & Hb0 & He & Hle & Hlt).
  unfold leading. unfold MANT_DIG.
  replace (leading_exponent p q - (53 - 1)) with (leading_exponent p q - 52) by lia.
  destruct (over_power_eq p q (leading_exponent p q - 52)) as (a & b & Ha & Hb & Hd & ->).
  exists a, b, (p * 2 ^ b), (q * 2 ^ a).
  repeat (split; [done|]). split; [|reflexivity].
  split.
  - rewrite <- Z.mul_assoc, <- Z.pow_add_r by lia.
    apply (scaled_le_shift q p a0 b0); try lia. 
  - rewrite <- Z.mul_assoc, <- Z.pow_add_r by lia.
    apply (scaled_lt_shift p q b0 (a0 + 1)); try lia.
    rewrite Z.pow_add_r by lia. change (2 ^ 1) with 2. lia.
Qed.

(** Rounding a quotient to the nearest integer, ties to even. *)
Lemma round_half_even n m :
  0 < m -> 0 <= n ->
  let M := n / m in let r := n mod m in
  let mant := if round_away (Z.odd M) (m <=? 2 * r)
                   (negb ((r =? 0) || (2 * r =? m))) then M + 1 else M in
  M <= mant <= M + 1 /\ 2 * Z.abs (n - mant * m) <= m.
Proof.
  intros Hm Hn M r mant.
  pose proof (Z.div_mod n m ltac:(lia)) as E.
  pose proof (Z.mod_pos_bound n m Hm) as B.
  fold M r in E, B. subst mant. unfold round_away.
  destruct (Z.leb_spec m (2 * r)); destruct (Z.eqb_spec r 0);
    destruct (Z.eqb_spec (2 * r) m); destruct (Z.odd M); simpl; split; try lia.
Qed.

Lemma nearest_integer n m mant t :
  0 < m -> 2 * Z.abs (n - mant * m) <= m ->
  Z.abs (n - mant * m) <= Z.abs (n - t * m).
Proof.
  intros Hm H. destruct (Z.eq_dec t mant) as [->|Hne]; [lia|].
  assert (m <= Z.abs ((mant - t) * m)).
  { rewrite Z.abs_mul, (Z.abs_eq m) by lia.
    assert (1 <= Z.abs (mant - t)) by lia. nia. }
  lia.
Qed.

(** *** The normal range *)

Lemma digits2_pos_size m : digits2_pos m = Pos.size m.
Proof. induction m as [m IH|m IH|]; simpl; by rewrite ?IH. Qed.

Lemma size_bounds m : 2 ^ (Zpos (Pos.size m) - 1) <= Zpos m < 2 ^ Zpos (Pos.size m).
Proof.
  split.
  - pose proof (Pos.size_le m) as H.
    apply Pos2Z.pos_le_pos in H. rewrite Pos2Z.inj_pow in H.
    replace (Zpos (Pos.size m)) with (1 + (Zpos (Pos.size m) - 1)) in H at 1 by lia.
    rewrite Z.pow_add_r in H by lia. change (2 ^ 1) with 2 in H. lia.
  - pose proof (Pos.size_gt m) as H.
    apply Pos2Z.pos_lt_pos in H. by rewrite Pos2Z.inj_pow in H.
Qed.

Lemma size_53 m : 2 ^ 52 <= Zpos m < 2 ^ 53 -> Pos.size m = 53%positive.
Proof.
  intros [H1 H2]. destruct (size_bounds m) as [B1 B2].
  assert (Zpos (Pos.size m) = 53); [|lia].
  destruct (Z.lt_trichotomy (Zpos (Pos.size m)) 53) as [H|[H|H]]; [|done|].
  - assert (2 ^ Zpos (Pos.size m) <= 2 ^ 52) by (apply Z.pow_le_mono_r; lia). lia.
  - assert (2 ^ 53 <= 2 ^ (Zpos (Pos.size m) - 1)) by (apply Z.pow_le_mono_r; lia). lia.
Qed.

Lemma finite_valid neg X w :
  2 ^ 52 <= X < 2 ^ 53 -> -1074 <= w <= 971 ->
  is_finite (finite neg X w) = true /\
  valid_binary prec emax (finite neg X w) = true /\
  units (finite neg X w) = (if neg then - X else X) * 2 ^ (w + 1074).
Proof.
  intros HX Hw. destruct X as [|x|x]; [lia| |lia]. cbn [finite is_finite units].
  split; [done|]. split; [|by destruct neg].
  unfold valid_binary, bounded, canonical_mantissa.
  rewrite digits2_pos_size, (size_53 x HX).
  unfold fexp, emin, prec, emax. apply andb_true_iff. split.
  - apply Z.eqb_eq. lia.
  - apply Z.leb_le. lia.
Qed.

(** What a valid finite double can be, in units of [2 ^ -1074]. *)
Lemma valid_units d :
  is_finite d = true -> valid_binary prec emax d = true ->
  exists s X w, units d = (if s : bool then - X else X) * 2 ^ (w + 1074) /\
                0 <= X < 2 ^ 53 /\ -1074 <= w.
Proof.
  destruct d as [s| | |s m e]; try discriminate; intros _ Hv.
  - exists false, 0, 0. cbn. lia.
  - exists s, (Zpos m), e. cbn [units]. split; [by destruct s|].
    unfold valid_binary, bounded, canonical_mantissa in Hv.
    apply andb_true_iff in Hv. destruct Hv as [Hc _].
    apply Z.eqb_eq in Hc. rewrite digits2_pos_size in Hc.
    unfold fexp, emin, prec, emax in Hc.
    destruct (size_bounds m) as [_ B].
    assert (Zpos (Pos.size m) <= 53) by lia.
    assert (2 ^ Zpos (Pos.size m) <= 2 ^ 53) by (apply Z.pow_le_mono_r; lia).
    lia.
Qed.

Lemma round_normal neg hex e M half more :
  -1022 <= e <= 1022 -> 2 ^ 52 <= M < 2 ^ 53 ->
  let mant := if round_away (Z.odd M) half more then M + 1 else M in
  round_and_return neg hex (mk_bits e M half more) =
  mk_strtod (if mant =? 2 ^ 53 then finite neg (2 ^ 52) (e - 51)
             else finite neg mant (e - 52)) true false.
Proof.
  intros He HM mant. unfold round_and_return.
  cbn [lb_exponent lb_mantissa lb_half lb_more].
  unfold MIN_EXP, MAX_EXP, MANT_DIG.
  destruct (Z.ltb_spec e (-1021 - 1 - 53)); [lia|].
  destruct (Z.leb_spec 1024 e); [lia|].
  destruct (Z.ltb_spec e (-1021 - 1)); [lia|].
  fold mant. destruct (Z.eqb_spec mant (2 ^ 53)).
  - destruct (Z.leb_spec 1024 (e + 1)); [lia|].
    do 2 f_equal. lia.
  - do 2 f_equal.
Qed.

(** In the normal range the conversion rounds to the nearest multiple
    of the unit in the last place, and sets no range error. *)
Lemma scaled_normal neg m k :
  0 < m -> in_normal_range (ratio false m k) ->
  exists d U,
    scaled neg false m k = mk_strtod (if neg then SFopp d else d) true false /\
    is_finite d = true /\ valid_binary prec emax d = true /\
    1 <= U /\ (exists j, 0 <= j /\ U = 2 ^ j) /\
    (ratio false m k).2 * (2 ^ 52 * U) <= (ratio false m k).1 * 2 ^ 1074 /\
    forall t, Z.abs ((ratio false m k).1 * 2 ^ 1074 - (ratio false m k).2 * units d)
              <= Z.abs ((ratio false m k).1 * 2 ^ 1074 - (ratio false m k).2 * (t * U)).
Proof.
  intros Hm. unfold scaled, ratio.
  set (pq := if 0 <=? k then (m * 10 ^ k, 1) else (m, 10 ^ (- k))).
  assert (Hpq : 0 < pq.1 /\ 0 < pq.2).
  { subst pq. destruct (Z.leb_spec 0 k); cbn [fst snd].
    - split; [apply Z.mul_pos_pos; [done|apply Z.pow_pos_nonneg; lia]|lia].
    - split; [done|apply Z.pow_pos_nonneg; lia]. }
  destruct pq as [p q]. simpl in Hpq. destruct Hpq as [Hp Hq].
  unfold in_normal_range. cbn [fst snd]. rewrite (Z.abs_eq p) by lia.
  intros [Hlo Hhi].
  destruct m as [|m'|m']; [lia| |lia].
  destruct (leading_exponent_spec p q Hp Hq) as (a0 & b0 & Ha0 & Hb0 & He0 & Hle0 & Hlt0).
  destruct (leading_spec p q Hp Hq) as (a & b & n & m & Ha & Hb & Hd & Hn & Hm' & Hnm & ->).
  set (e := leading_exponent p q) in *.
  assert (Pa := pow2_pos a Ha). assert (Pb := pow2_pos b Hb).
  assert (Hmpos : 0 < m) by (subst m; by apply Z.mul_pos_pos).
  assert (Hnpos : 0 <= n) by (subst n; apply Z.mul_nonneg_nonneg; lia).
  assert (He : -1022 <= e <= 1022).
  { split.
    - destruct (Z.le_gt_cases (-1022) e) as [|Hc]; [done|exfalso].
      assert (p * 2 ^ (- e - 1) < q * 2 ^ 0) as Hx.
      { apply (scaled_lt_shift p q b0 (a0 + 1)); try lia.
        rewrite Z.pow_add_r by lia. change (2 ^ 1) with 2. lia. }
      assert (2 ^ 1022 <= 2 ^ (- e - 1)) by (apply Z.pow_le_mono_r; lia).
      rewrite Z.pow_0_r in Hx. nia.
    - destruct (Z.le_gt_cases e 1022) as [|Hc]; [done|exfalso].
      assert (q * 2 ^ e <= p * 2 ^ 0) as Hx.
      { apply (scaled_le_shift q p a0 b0); lia. }
      assert (2 ^ 1023 <= 2 ^ e) by (apply Z.pow_le_mono_r; lia).
      rewrite Z.pow_0_r in Hx. nia. }
  clear a0 b0 Ha0 Hb0 He0 Hle0 Hlt0.
  assert (HM : 2 ^ 52 <= n / m < 2 ^ 53).
  { split.
    - apply Z.div_le_lower_bound; lia.
    - apply Z.div_lt_upper_bound; lia. }
  rewrite (round_normal neg false e (n / m) _ _ He HM).
  destruct (round_half_even n m Hmpos Hnpos) as [Hr1 Hr2].
  set (mant := if round_away (Z.odd (n / m)) (m <=? 2 * (n mod m))
                    (negb ((n mod m =? 0) || (2 * (n mod m) =? m)))
               then n / m + 1 else n / m) in *.
  set (U := 2 ^ (e - 52 + 1074)).
  assert (HU : 0 < U) by (apply pow2_pos; lia).
  assert (HUb : U * 2 ^ b = 2 ^ a * 2 ^ 1074).
  { unfold U. rewrite <- !Z.pow_add_r by lia. f_equal. lia. }
  set (d := if mant =? 2 ^ 53 then finite false (2 ^ 52) (e - 51)
            else finite false mant (e - 52)).
  assert (Hd3 : is_finite d = true /\ valid_binary prec emax d = true /\
                units d = mant * U).
  { unfold d. destruct (Z.eqb_spec mant (2 ^ 53)) as [E|E].
    - destruct (finite_valid false (2 ^ 52) (e - 51)) as (F1 & F2 & F3); [lia..|].
      split; [done|]. split; [done|]. rewrite F3, E. unfold U.
      replace (e - 51 + 1074) with (1 + (e - 52 + 1074)) by lia.
      rewrite Z.pow_add_r by lia. lia.
    - destruct (finite_valid false mant (e - 52)) as (F1 & F2 & F3); [lia..|].
      done. }
  destruct Hd3 as (Hf & Hv & Hu).
  exists d, U. split.
  { f_equal. unfold d. destruct neg; [|done].
    destruct (mant =? 2 ^ 53); [reflexivity|].
    destruct mant; reflexivity. }
  split; [done|]. split; [done|]. split; [lia|].
  split; [exists (e - 52 + 1074); split; [lia|done]|].
  assert (Hscale : forall t, (p * 2 ^ 1074 - q * (t * U)) * 2 ^ b =
                             (n - t * m) * 2 ^ 1074).
  { intros t. transitivity (p * 2 ^ b * 2 ^ 1074 - q * t * (U * 2 ^ b)); [ring|].
    rewrite HUb, Hn, Hm'. ring. }
  split.
  - apply (Z.mul_le_mono_pos_r _ _ (2 ^ b)); [done|].
    specialize (Hscale (2 ^ 52)).
    assert (0 < 2 ^ 1074) by (by apply pow2_pos). nia.
  - intros t. rewrite Hu.
    apply (Z.mul_le_mono_pos_r _ _ (2 ^ b)); [done|].
    rewrite <- (Z.abs_eq (2 ^ b)) at 1 2 by lia. rewrite <- !Z.abs_mul.
    rewrite !Hscale, !Z.abs_mul. apply Z.mul_le_mono_nonneg_r; [lia|].
    by apply nearest_integer.
Qed.

(** *** Nearest double *)

Lemma valid_opp d : valid_binary prec emax (SFopp d) = valid_binary prec emax d.
Proof. by destruct d. Qed.

Lemma is_finite_opp d : is_finite (SFopp d) = is_finite d.
Proof. by destruct d. Qed.

Lemma units_opp d : units (SFopp d) = - units d.
Proof. destruct d as [| | |[] m e]; cbn; lia. Qed.

Lemma opp_opp d : d <> S754_nan -> SFopp (SFopp d) = d.
Proof. destruct d as [[]|[]| |[] m e]; done. Qed.

Lemma nearest_opp d p q : nearest d (p, q) -> nearest (SFopp d) (- p, q).
Proof.
  unfold nearest. cbn [fst snd]. intros (Hf & Hv & Hn).
  rewrite is_finite_opp, valid_opp. split; [done|]. split; [done|].
  intros d' Hf' Hv'. specialize (Hn (SFopp d')).
  rewrite is_finite_opp, valid_opp, units_opp in Hn. specialize (Hn Hf' Hv').
  rewrite units_opp. lia.
Qed.

(** A valid double is a multiple of a unit in the last place [U] of
    the binade above [2 ^ 52 * U], or lies below that binade. *)
Lemma units_dichotomy d j :
  is_finite d = true -> valid_binary prec emax d = true -> 0 <= j ->
  (exists t, units d = t * 2 ^ j) \/ units d <= 2 ^ 52 * 2 ^ j.
Proof.
  intros Hf Hv Hj. destruct (valid_units d Hf Hv) as (s & X & w & -> & HX & Hw).
  assert (P := pow2_pos j Hj).
  assert (Pw := pow2_pos (w + 1074) ltac:(lia)).
  destruct s.
  { right. assert (0 <= X * 2 ^ (w + 1074)) by (apply Z.mul_nonneg_nonneg; lia).
    assert (0 <= 2 ^ 52 * 2 ^ j) by (apply Z.mul_nonneg_nonneg; lia). lia. }
  destruct (Z.le_gt_cases j (w + 1074)) as [H|H].
  - left. exists (X * 2 ^ (w + 1074 - j)).
    rewrite <- Z.mul_assoc, <- Z.pow_add_r by lia. do 2 f_equal. lia.
  - right. replace j with (1 + (j - 1)) by lia.
    rewrite (Z.pow_add_r 2 1 (j - 1)) by lia. change (2 ^ 1) with 2.
    assert (2 ^ (w + 1074) <= 2 ^ (j - 1)) by (apply Z.pow_le_mono_r; lia).
    assert (0 < 2 ^ (j - 1)) by (apply pow2_pos; lia).
    change (2 ^ 53) with (2 * 2 ^ 52) in HX.
    apply Z.le_trans with (2 * 2 ^ 52 * 2 ^ (j - 1)); [|lia].
    apply Z.mul_le_mono_nonneg; lia.
Qed.

Lemma scaled_nearest neg m k :
  0 < m -> in_normal_range (ratio neg m k) ->
  exists d, scaled neg false m k = mk_strtod d true false /\
            nearest d (ratio neg m k).
Proof.
  intros Hm Hr.
  assert (Hratio : ratio neg m k =
                   ((if neg then - (ratio false m k).1 else (ratio false m k).1),
                    (ratio false m k).2)).
  { unfold ratio. destruct neg; destruct (0 <=? k); cbn [fst snd]; f_equal; ring. }
  assert (Hr' : in_normal_range (ratio false m k)).
  { rewrite Hratio in Hr. unfold in_normal_range in *. cbn [fst snd] in Hr.
    destruct neg; [|done]. by rewrite Z.abs_opp in Hr. }
  destruct (scaled_normal neg m k Hm Hr')
    as (d & U & Hs & Hf & Hv & HU & (j & Hj & ->) & Hlow & Hnear).
  assert (Hd : nearest d (ratio false m k)).
  { split; [done|]. split; [done|]. intros d' Hf' Hv'.
    destruct (ratio false m k) as [p q] eqn:Epq. cbn [fst snd] in *.
    assert (Hq : 0 < q).
    { unfold ratio in Epq. destruct (Z.leb_spec 0 k); injection Epq as <- <-; [lia|].
      apply Z.pow_pos_nonneg; lia. }
    destruct (units_dichotomy d' j Hf' Hv' Hj) as [(t & ->)|Hle]; [apply Hnear|].
    specialize (Hnear (2 ^ 52)).
    assert (q * units d' <= q * (2 ^ 52 * 2 ^ j))
      by (apply Z.mul_le_mono_nonneg_l; lia).
    lia. }
  exists (if neg then SFopp d else d). split; [done|].
  rewrite Hratio. destruct neg; [|by destruct (ratio false m k)].
  apply nearest_opp. by destruct (ratio false m k).
Qed.

(** [std::stod] on decimal text: a zero of the text's sign for zero
    digits; in the normal range a double nearest to the number the
    text denotes. *)
Lemma stod_decimal_text s neg m k :
  decimal_text s neg m k ->
  (m = 0 -> stod s = Ok (S754_zero neg)) /\
  (0 < m -> in_normal_range (ratio neg m k) ->
   exists d, stod s = Ok d /\ nearest d (ratio neg m k)).
Proof.
  intros Ht. unfold stod. rewrite (strtod_decimal_text s neg m k Ht). split.
  - intros ->. reflexivity.
  - intros Hm Hr. destruct (scaled_nearest neg m k Hm Hr) as (d & -> & Hd).
    exists d. by split.
Qed.

End RealFacts.

(** ** The status accessors *)
Module Status.
Import Std Kiwisdr Accessor Reading StdFacts RegistryFacts RealFacts.

Local Ltac one_key Hk :=
  apply list_elem_of_singleton in Hk; subst.

Local Ltac open_accessor :=
  cbv beta iota delta
    [call fmap get_client_public_ip get_rx_chans get_chan_no_pwd
     is_password_ok get_version get_cfg get_audio_rate get_sample_rate
     is_audio_initialized get_center_freq get_bandwidth get_adc_clk_nom].

(** What the accessor [a] returns from a registry that holds the
    strings [vs] under its keys. *)
Lemma call_reads {sample : Type} (a : name) (b : kiwisdr_impl sample) vs :
  Forall2 (fun k v => _msg b !! k = Some v) (keys a) vs ->
  Real.reads a vs (call a b).
Proof.
  intros Hvs.
  destruct a; simpl in Hvs;
    try (inversion Hvs as [|k v ks vs' Hv Hnil]; subst;
         inversion Hnil; subst;
         lazymatch goal with |- Real.reads _ [_] _ => idtac end;
         apply at_present in Hv;
         open_accessor; rewrite Hv; cbn [bind Real.reads]).
  - reflexivity.
  - intros z Hz. by rewrite (stoi_complete _ _ Hz).
  - intros z Hz. by rewrite (stoi_complete _ _ Hz).
  - exists (String.eqb v "0"). split; [reflexivity|]. apply String.eqb_eq.
  - inversion Hvs as [|k1 maj ks vs1 Hmaj Hrest]; subst.
    inversion Hrest as [|k2 min ks' vs2 Hmin Hnil]; subst.
    inversion Hnil; subst. apply at_present in Hmaj, Hmin.
    open_accessor. rewrite Hmaj, Hmin. simpl. by rewrite append_assoc.
  - reflexivity.
  - intros neg m k Ht. destruct (stod_decimal_text _ _ _ _ Ht) as [H0 H1].
    split; [by intros E; rewrite (H0 E)|].
    intros Hm Hr. destruct (H1 Hm Hr) as (d & -> & Hd). by exists d.
  - intros neg m k Ht. destruct (stod_decimal_text _ _ _ _ Ht) as [H0 H1].
    split; [by intros E; rewrite (H0 E)|].
    intros Hm Hr. destruct (H1 Hm Hr) as (d & -> & Hd). by exists d.
  - exists (String.eqb v "1"). split; [reflexivity|]. apply String.eqb_eq.
  - intros neg m k Ht. destruct (stod_decimal_text _ _ _ _ Ht) as [H0 H1].
    split; [by intros E; rewrite (H0 E)|].
    intros Hm Hr. destruct (H1 Hm Hr) as (d & -> & Hd). by exists d.
  - intros neg m k Ht. destruct (stod_decimal_text _ _ _ _ Ht) as [H0 H1].
    split; [by intros E; rewrite (H0 E)|].
    intros Hm Hr. destruct (H1 Hm Hr) as (d & -> & Hd). by exists d.
  - intros neg m k Ht. destruct (stod_decimal_text _ _ _ _ Ht) as [H0 H1].
    split; [by intros E; rewrite (H0 E)|].
    intros Hm Hr. destruct (H1 Hm Hr) as (d & -> & Hd). by exists d.
Qed.

(** C2: every status accessor throws [MissingKey] while a key it reads
    is absent from the registry, and from a registry that holds its
    keys it returns what the stored strings denote at its type: the
    string itself, the two version parts around a dot, a flag that is
    true exactly for the flag's digit, the [int] denoted by the longest
    numeric prefix, and for decimal text in the normal range a nearest
    double. *)
Theorem accessor_before_and_after_handshake {sample : Type}
    (a : name) (b : kiwisdr_impl sample) :
  (forall k, k ∈ keys a -> _msg b !! k = None -> call a b = Throw MissingKey) /\
  (forall vs,
      Forall2 (fun k v => _msg b !! k = Some v) (keys a) vs ->
      Real.reads a vs (call a b)).
Proof.
  split.
  - intros k Hk Hnone.
    destruct a; simpl in Hk;
      try (one_key Hk; open_accessor;
           by rewrite (at_absent _ _ Hnone)).
    open_accessor.
    apply elem_of_cons in Hk. destruct Hk as [->|Hk].
    + by rewrite (at_absent _ _ Hnone).
    + one_key Hk. rewrite (at_absent _ _ Hnone).
      unfold at_. by destruct (_msg b !! "version_maj").
  - apply call_reads.
Qed.

Lemma accessor_before_and_after_handshake_witness :
  call password_ok (Examples.block ReceiverClient.Handshaking [] []) =
    Throw MissingKey /\
  call rx_chans
    (on_status (Examples.block ReceiverClient.Handshaking [] [])
       [("rx_chans", " 8 channels")]%string) = Ok (VInt 8) /\
  exists d,
    call sample_rate
      (on_status (Examples.block ReceiverClient.Handshaking [] [])
         [("sample_rate", "12000.5")]%string) = Ok (VDouble d) /\
    Real.nearest d (120005, 10).
Proof.
  split; [|split].
  - apply (proj1 (accessor_before_and_after_handshake password_ok
                    (Examples.block ReceiverClient.Handshaking [] []))
             "badp"%string).
    + simpl. apply list_elem_of_here.
    + vm_compute. reflexivity.
  - apply (proj2 (accessor_before_and_after_handshake rx_chans
                    (on_status (Examples.block ReceiverClient.Handshaking [] [])
                       [("rx_chans", " 8 channels")]%string))
             [" 8 channels"%string]).
    + simpl. constructor; [vm_compute; reflexivity | constructor].
    + split; [|vm_compute; split; discriminate].
      exists " "%string, EmptyString, false, "8"%string, " channels"%string.
      split; [reflexivity|]. split; [reflexivity|]. split; [constructor|].
      split; [discriminate|]. split; [reflexivity|]. split; reflexivity.
  - apply (proj2 (accessor_before_and_after_handshake sample_rate
                    (on_status (Examples.block ReceiverClient.Handshaking [] [])
                       [("sample_rate", "12000.5")]%string))
             ["12000.5"%string]
             ltac:(simpl; constructor; [vm_compute; reflexivity | constructor])
             false 120005 (-1)).
    + exists EmptyString, EmptyString, "12000"%string, ".5"%string, "5"%string,
        EmptyString, 0, EmptyString.
      split; [reflexivity|]. split; [reflexivity|]. split; [constructor|].
      split; [reflexivity|]. split; [by constructor|]. split; [discriminate|].
      split; [constructor|]. split; [reflexivity|]. split; [reflexivity|].
      split; reflexivity.
    + reflexivity.
    + vm_compute. split; [discriminate|reflexivity].
Defined.

(** After a status response that contains an accessor's keys, the
    accessor returns what the response's strings denote at its type. *)
Lemma call_after_status {sample : Type} (a : name) (b : kiwisdr_impl sample)
    response vs :
  Forall2 (fun k v => field response k = Some v) (keys a) vs ->
  Real.reads a vs (call a (on_status b response)).
Proof.
  intros Hvs. apply call_reads.
  eapply Forall2_impl; [exact Hvs|].
  intros k v Hv. by apply lookup_on_status.
Qed.

(** C3, as the code has it: with the key [badp] present,
    [is_password_ok] returns true when the stored value is "0" and
    false for every other stored value, "1" included; it never throws. *)
Theorem is_password_ok_compares_with_zero {sample : Type}
    (b : kiwisdr_impl sample) (v : string) :
  _msg b !! "badp" = Some v ->
  (v = "0"%string -> is_password_ok b = Ok true) /\
  (v = "1"%string -> is_password_ok b = Ok false) /\
  (v <> "0"%string -> is_password_ok b = Ok false).
Proof.
  intros Hv. unfold is_password_ok. rewrite (at_present _ _ _ Hv). simpl.
  split; [|split].
  - by intros ->.
  - by intros ->.
  - intros Hne. f_equal. by apply String.eqb_neq.
Qed.

Lemma is_password_ok_compares_with_zero_witness :
  is_password_ok (Examples.block ReceiverClient.Streaming [] [("badp", "0")]%string)
    = Ok true.
Proof.
  apply (is_password_ok_compares_with_zero
           (Examples.block ReceiverClient.Streaming [] [("badp", "0")]%string)
           "0"%string).
  - vm_compute. reflexivity.
  - reflexivity.
Defined.

(** C3 as stated fails: a stored value other than "0" and "1" does
    not make [is_password_ok] throw; it returns false. *)
Lemma is_password_ok_other_value_returns :
  let b := Examples.block ReceiverClient.Streaming [] [("badp", "2")]%string in
  _msg b !! "badp" = Some "2"%string /\
  is_password_ok b = Ok false /\
  ~ exists e, is_password_ok b = Throw e.
Proof.
  split; [vm_compute; reflexivity|].
  split; [vm_compute; reflexivity|].
  intros [e He]. vm_compute in He. discriminate He.
Qed.

(** C6: [get_version] returns the value of [version_maj], a dot and the
    value of [version_min]; it throws [MissingKey] when either key is
    absent. *)
Theorem get_version_joins_with_dot {sample : Type} (b : kiwisdr_impl sample) :
  (forall maj min,
      _msg b !! "version_maj" = Some maj ->
      _msg b !! "version_min" = Some min ->
      get_version b = Ok (maj +:+ "." +:+ min)) /\
  (_msg b !! "version_maj" = None \/ _msg b !! "version_min" = None ->
   get_version b = Throw MissingKey).
Proof.
  unfold get_version. split.
  - intros maj min Hmaj Hmin.
    rewrite (at_present _ _ _ Hmaj), (at_present _ _ _ Hmin). simpl.
    by rewrite append_assoc.
  - intros [H|H].
    + by rewrite (at_absent _ _ H).
    + rewrite (at_absent _ _ H). unfold at_.
      by destruct (_msg b !! "version_maj").
Qed.

Lemma get_version_joins_with_dot_witness :
  get_version
    (Examples.block ReceiverClient.Streaming []
       [("version_maj", "1"); ("version_min", "290")]%string) = Ok "1.290"%string /\
  get_version
    (Examples.block ReceiverClient.Streaming [] [("version_min", "290")]%string)
    = Throw MissingKey.
Proof.
  split.
  - apply (proj1 (get_version_joins_with_dot
                    (Examples.block ReceiverClient.Streaming []
                       [("version_maj", "1"); ("version_min", "290")]%string))
             "1"%string "290"%string); vm_compute; reflexivity.
  - apply (proj2 (get_version_joins_with_dot
                    (Examples.block ReceiverClient.Streaming []
                       [("version_min", "290")]%string))).
    left. vm_compute. reflexivity.
Defined.

(** C8: with ["12000.0"] stored under [sample_rate], [get_sample_rate]
    returns the double whose value is exactly 12000. *)
Theorem get_sample_rate_12000 {sample : Type} (b : kiwisdr_impl sample) :
  _msg b !! "sample_rate" = Some "12000.0"%string ->
  get_sample_rate b = Ok (double_of_Z 12000) /\
  represents (double_of_Z 12000) 12000.
Proof.
  intros Hv. unfold get_sample_rate. rewrite (at_present _ _ _ Hv).
  split; [vm_compute; reflexivity|].
  vm_compute. repeat split; discriminate.
Qed.

Lemma get_sample_rate_12000_witness :
  get_sample_rate
    (Examples.block ReceiverClient.Streaming [] [("sample_rate", "12000.0")]%string)
    = Ok (double_of_Z 12000).
Proof.
  apply (get_sample_rate_12000
           (Examples.block ReceiverClient.Streaming []
              [("sample_rate", "12000.0")]%string)).
  vm_compute. reflexivity.
Defined.

(** C10: when the string stored under [rx_chans] (or [chan_no_pwd])
    starts with an integer and goes on with other characters, the
    accessor returns that integer; it fails only when the string has no
    numeric prefix that is an int. *)
Theorem integer_accessors_read_leading_integer {sample : Type}
    (b : kiwisdr_impl sample) (v : string) :
  (_msg b !! "rx_chans" = Some v ->
     (forall z, int_prefix v z -> get_rx_chans b = Ok z) /\
     (returns (get_rx_chans b) = false <-> ~ exists z, int_prefix v z) /\
     (forall e, get_rx_chans b = Throw e -> e <> MissingKey)) /\
  (_msg b !! "chan_no_pwd" = Some v ->
     (forall z, int_prefix v z -> get_chan_no_pwd b = Ok z) /\
     (returns (get_chan_no_pwd b) = false <-> ~ exists z, int_prefix v z) /\
     (forall e, get_chan_no_pwd b = Throw e -> e <> MissingKey)).
Proof.
  unfold get_rx_chans, get_chan_no_pwd.
  split; intros Hv; rewrite (at_present _ _ _ Hv); simpl;
    (split; [intros z Hz; by apply stoi_complete|]);
    (split; [apply stoi_fails_iff|]);
    intros e He; destruct (stoi_throws _ _ He) as [[-> _]|[-> _]]; discriminate.
Qed.

Lemma integer_accessors_read_leading_integer_witness :
  get_rx_chans (Examples.block ReceiverClient.Streaming [] [("rx_chans", "4abc")]%string)
    = Ok 4.
Proof.
  apply (proj1 (proj1 (integer_accessors_read_leading_integer
                         (Examples.block ReceiverClient.Streaming []
                            [("rx_chans", "4abc")]%string)
                         "4abc"%string)
                  ltac:(vm_compute; reflexivity))).
  split.
  - exists EmptyString, EmptyString, false, "4"%string, "abc"%string.
    repeat split; try reflexivity; try constructor. discriminate.
  - vm_compute. split; discriminate.
Defined.

End Status.

(** ** Facts about the sample queue *)
Module QueueFacts.
Import ReceiverClient.

Section Queue.
Context {sample : Type}.
Implicit Types (q : list (SampleFrame sample)) (c : t sample).

Lemma samples_of_cons (f : SampleFrame sample) q :
  samples_of (f :: q) = payload f ++ samples_of q.
Proof. reflexivity. Qed.

Lemma samples_of_snoc q (f : SampleFrame sample) :
  samples_of (q ++ [f]) = samples_of q ++ payload f.
Proof.
  unfold samples_of. rewrite map_app, concat_app. simpl.
  by rewrite app_nil_r.
Qed.

Lemma samples_of_tail q : samples_of (tail q) `sublist_of` samples_of q.
Proof.
  destruct q as [|f q]; [constructor|]. rewrite samples_of_cons. simpl.
  by apply sublist_inserts_l.
Qed.

(** Popping hands out the first [n] waiting samples and keeps the
    others, in order. *)
Lemma pop_queue_take_drop n q :
  (pop_queue n q).1 = take n (samples_of q) /\
  samples_of (pop_queue n q).2 = drop n (samples_of q).
Proof.
  revert n. induction q as [|f q IH]; intros n.
  - unfold samples_of. simpl. by rewrite take_nil, drop_nil.
  - rewrite samples_of_cons. cbn [pop_queue].
    destruct (length (payload f) <=? n)%nat eqn:E.
    + apply Nat.leb_le in E.
      destruct (IH (n - length (payload f))%nat) as [IH1 IH2].
      destruct (pop_queue (n - length (payload f)) q) as [out q'].
      simpl in *. rewrite IH1, IH2.
      by rewrite take_app_ge, drop_app_ge.
    + apply Nat.leb_gt in E. simpl. rewrite samples_of_cons. simpl.
      rewrite take_app_le, drop_app_le by lia. done.
Qed.

Lemma push_frame_sublist c (f : SampleFrame sample) :
  samples_of (queue (push_frame c f))
    `sublist_of` samples_of (queue c) ++ payload f.
Proof.
  unfold push_frame. destruct (capacity c <=? length (queue c))%nat; simpl.
  - rewrite samples_of_snoc. apply sublist_app; [apply samples_of_tail|done].
  - by rewrite samples_of_snoc.
Qed.

Lemma push_frame_dropped c (f : SampleFrame sample) :
  (dropped c <= dropped (push_frame c f))%nat.
Proof.
  unfold push_frame. destruct (capacity c <=? length (queue c))%nat; simpl; lia.
Qed.

Lemma push_frame_kept c (f : SampleFrame sample) :
  dropped (push_frame c f) = dropped c ->
  samples_of (queue (push_frame c f)) = samples_of (queue c) ++ payload f.
Proof.
  unfold push_frame. destruct (capacity c <=? length (queue c))%nat; simpl.
  - lia.
  - intros _. apply samples_of_snoc.
Qed.

End Queue.

End QueueFacts.

(** ** The pull operation, the parameters and shutdown *)
Module Block.
Import Kiwisdr Run QueueFacts.

(** One pull: what it delivers, what it leaves, and that it drops
    nothing. *)
Lemma general_work_delivers {sample : Type} (b : kiwisdr_impl sample) n out :
  delivered (general_work b n out).1.1 (general_work b n out).1.2
    = take n (buffered b) /\
  buffered (general_work b n out).2 = drop n (buffered b) /\
  drops (general_work b n out).2 = drops b.
Proof.
  unfold general_work, buffered, drops.
  destruct (ReceiverClient.queue (_ws_client_ptr b)) as [|f q] eqn:Eq.
  - unfold delivered. simpl. rewrite Eq.
    unfold ReceiverClient.samples_of. simpl.
    by rewrite ?take_nil, ?drop_nil, ?take_0.
  - unfold ReceiverClient.pop_samples. rewrite Eq.
    destruct (pop_queue_take_drop n (f :: q)) as [H1 H2].
    destruct (ReceiverClient.pop_queue n (f :: q)) as [xs q'].
    simpl in *. subst xs. split; [|by split].
    unfold copy_out. apply take_app_length.
Qed.




(** C4: when [low_cut >= high_cut], [RxParameters.set] and
    [set_rx_parameters] fail with [InvalidRange]; the block is left as
    it was, so [current] still returns the earlier triple and no
    command has been sent. *)
Theorem set_rx_parameters_rejects_inverted_range {sample : Type}
    (b : kiwisdr_impl sample) (f : Std.double) (lo hi : Z) :
  hi <= lo ->
  RxParameters.set (_rx_parameters b) f lo hi = inl InvalidRange /\
  set_rx_parameters b f lo hi = (Some InvalidRange, b) /\
  current (set_rx_parameters b f lo hi).2 = current b /\
  ReceiverClient.sent (_ws_client_ptr (set_rx_parameters b f lo hi).2)
    = ReceiverClient.sent (_ws_client_ptr b).
Proof.
  intros Hle.
  assert (Hset : RxParameters.set (_rx_parameters b) f lo hi = inl InvalidRange).
  { unfold RxParameters.set. destruct (lo <? hi) eqn:E; [|reflexivity].
    apply Z.ltb_lt in E. lia. }
  unfold set_rx_parameters. rewrite Hset. auto.
Qed.

Lemma set_rx_parameters_rejects_inverted_range_witness :
  set_rx_parameters (Examples.block ReceiverClient.Streaming [] [])
    (Std.double_of_Z 14070) 2700 300
  = (Some InvalidRange, Examples.block ReceiverClient.Streaming [] []).
Proof.
  apply (set_rx_parameters_rejects_inverted_range
           (Examples.block ReceiverClient.Streaming [] [])
           (Std.double_of_Z 14070) 2700 300).
  lia.
Defined.

(** C5: when [low_cut < high_cut], after [set_rx_parameters] the triple
    read back with [current] is exactly the one that was set, whether
    or not the command could be sent. *)
Theorem set_rx_parameters_round_trip {sample : Type}
    (b : kiwisdr_impl sample) (f : Std.double) (lo hi : Z) :
  lo < hi ->
  current (set_rx_parameters b f lo hi).2 = RxParameters.mk f lo hi /\
  ((set_rx_parameters b f lo hi).1 = None \/
   (set_rx_parameters b f lo hi).1 = Some NotConnected) /\
  exists cmd p, RxParameters.set (_rx_parameters b) f lo hi = inr (cmd, p) /\
                RxParameters.current p = RxParameters.mk f lo hi.
Proof.
  intros Hlt.
  assert (Hset : RxParameters.set (_rx_parameters b) f lo hi
                 = inr (RxParameters.mk f lo hi, RxParameters.mk f lo hi)).
  { unfold RxParameters.set. destruct (lo <? hi) eqn:E; [reflexivity|].
    apply Z.ltb_ge in E. lia. }
  unfold set_rx_parameters. rewrite Hset.
  unfold ReceiverClient.send_parameters. simpl.
  destruct (ReceiverClient.state (_ws_client_ptr b)); simpl;
    (split; [reflexivity|]); (split; [auto|]);
    by exists (RxParameters.mk f lo hi), (RxParameters.mk f lo hi).
Qed.

Lemma set_rx_parameters_round_trip_witness :
  current (set_rx_parameters (Examples.block ReceiverClient.Streaming [] [])
             (Std.double_of_Z 14070) 300 2700).2
  = RxParameters.mk (Std.double_of_Z 14070) 300 2700.
Proof.
  apply (set_rx_parameters_round_trip
           (Examples.block ReceiverClient.Streaming [] [])
           (Std.double_of_Z 14070) 300 2700).
  lia.
Defined.

Lemma run_drops_mono {sample : Type} (tr : list event) (b : kiwisdr_impl sample) :
  (drops b <= drops (run b tr).2)%nat.
Proof.
  revert b. induction tr as [|[f|n out] tr IH]; intros b; cbn [run].
  - simpl. lia.
  - etransitivity; [|apply IH]. apply push_frame_dropped.
  - destruct (general_work_delivers b n out) as (_ & _ & Hd).
    destruct (general_work b n out) as [[r out'] b'].
    specialize (IH b'). destruct (run b' tr) as [ds b''].
    simpl in *. lia.
Qed.

(** C7: over any run of pulls with frames arriving in between, the
    samples handed to the caller, followed by those still buffered,
    are the samples buffered at the start followed by those decoded
    since, in that order and each at most once; when no frame was
    dropped, none is missing. *)
Theorem produce_is_fifo {sample : Type}
    (b : kiwisdr_impl sample) (tr : list event) :
  concat (run b tr).1 ++ buffered (run b tr).2
    `sublist_of` buffered b ++ decoded tr /\
  (drops (run b tr).2 = drops b ->
   concat (run b tr).1 ++ buffered (run b tr).2 = buffered b ++ decoded tr) /\
  (NoDup (buffered b ++ decoded tr) -> NoDup (concat (run b tr).1)).
Proof.
  assert (Hsub : forall tr (b : kiwisdr_impl sample),
             concat (run b tr).1 ++ buffered (run b tr).2
               `sublist_of` buffered b ++ decoded tr).
  { clear. induction tr as [|[f|n out] tr IH]; intros b; cbn [run decoded].
    - simpl. by rewrite app_nil_r.
    - etransitivity; [apply IH|]. rewrite app_assoc.
      apply sublist_app; [|done]. apply push_frame_sublist.
    - destruct (general_work_delivers b n out) as (Hd & Hb & _).
      destruct (general_work b n out) as [[r out'] b'].
      specialize (IH b'). destruct (run b' tr) as [ds b''].
      simpl in *. rewrite Hd, <- app_assoc.
      rewrite <- (take_drop n (buffered b)) at 2. rewrite <- app_assoc.
      apply sublist_app; [done|]. by rewrite <- Hb. }
  split; [apply Hsub|]. split.
  - revert b. induction tr as [|[f|n out] tr IH]; intros b; cbn [run decoded].
    + simpl. by rewrite app_nil_r.
    + intros Hd.
      pose proof (run_drops_mono tr
        (with_client b (ReceiverClient.push_frame (_ws_client_ptr b) f))) as Hm.
      pose proof (push_frame_dropped (_ws_client_ptr b) f) as Hp.
      unfold drops in *. simpl in *.
      rewrite IH by (unfold drops; simpl; lia).
      unfold buffered. simpl. rewrite push_frame_kept by lia.
      by rewrite app_assoc.
    + destruct (general_work_delivers b n out) as (Hd & Hb & Hk).
      pose proof (run_drops_mono tr (general_work b n out).2) as Hm.
      destruct (general_work b n out) as [[r out'] b'].
      specialize (IH b'). destruct (run b' tr) as [ds b''].
      simpl in *. intros He. rewrite Hd, <- app_assoc, IH by lia.
      by rewrite Hb, app_assoc, take_drop.
  - intros Hnd. eapply sublist_NoDup; [exact Hnd|].
    etransitivity; [|apply Hsub]. by apply sublist_inserts_r.
Qed.

Lemma produce_is_fifo_witness :
  let b := Examples.block ReceiverClient.Streaming
             [ReceiverClient.mk_frame 0 [1; 2; 3]%nat] [] in
  let tr := [Pull 2 [0; 0]%nat;
             Decoded (ReceiverClient.mk_frame 1 [4; 5]%nat);
             Pull 2 [0; 0]%nat] in
  concat (run b tr).1 ++ buffered (run b tr).2 = [1; 2; 3; 4; 5]%nat.
Proof.
  apply (proj1 (proj2 (produce_is_fifo
                         (Examples.block ReceiverClient.Streaming
                            [ReceiverClient.mk_frame 0 [1; 2; 3]%nat] [])
                         [Pull 2 [0; 0]%nat;
                          Decoded (ReceiverClient.mk_frame 1 [4; 5]%nat);
                          Pull 2 [0; 0]%nat]))).
  reflexivity.
Defined.

(** C9: [stop] of the block returns true in every state, and stopping
    the client is idempotent: on a stopped client it changes nothing,
    and a second [stop] has no further effect. *)
Theorem stop_returns_true_and_is_idempotent {sample : Type}
    (b : kiwisdr_impl sample) :
  (stop b).1 = true /\
  (ReceiverClient.state (_ws_client_ptr b) = ReceiverClient.Disconnected ->
   ReceiverClient.stop (_ws_client_ptr b) = _ws_client_ptr b) /\
  ReceiverClient.stop (ReceiverClient.stop (_ws_client_ptr b))
    = ReceiverClient.stop (_ws_client_ptr b) /\
  stop (stop b).2 = stop b /\
  ReceiverClient.state (_ws_client_ptr (stop b).2) = ReceiverClient.Disconnected.
Proof.
  unfold stop, ReceiverClient.stop. simpl.
  split; [reflexivity|]. split; [by intros ->|].
  destruct b as [c m h p r]. simpl.
  destruct c as [st ? ? ? ? ? ? ?]. simpl.
  destruct st; simpl; auto.
Qed.

Lemma stop_returns_true_and_is_idempotent_witness :
  ReceiverClient.stop (Examples.client ReceiverClient.Disconnected [])
    = Examples.client ReceiverClient.Disconnected [].
Proof.
  apply (proj1 (proj2 (stop_returns_true_and_is_idempotent
                         (Examples.block ReceiverClient.Disconnected [] [])))).
  reflexivity.
Defined.

End Block.


(** ** More about the status accessors *)
Module More.
Import Std Kiwisdr Accessor Reading Shape StdFacts RegistryFacts RealFacts.

Local Ltac unfold_accessor :=
  cbv beta iota delta
    [call fmap get_client_public_ip get_rx_chans get_chan_no_pwd
     is_password_ok get_version get_cfg get_audio_rate get_sample_rate
     is_audio_initialized get_center_freq get_bandwidth get_adc_clk_nom].

(** With all its keys present, an accessor is its parser applied to the
    stored strings. *)
Lemma call_present {sample : Type} (a : name) (b : kiwisdr_impl sample) vs :
  Forall2 (fun k v => _msg b !! k = Some v) (keys a) vs ->
  call a b = parsed a vs.
Proof.
  intros Hvs.
  destruct a; simpl in Hvs;
    try (inversion Hvs as [|k v ks vs' Hv Hnil]; subst;
         inversion Hnil; subst; apply at_present in Hv;
         unfold_accessor; by rewrite Hv).
  inversion Hvs as [|k1 maj ks vs1 Hmaj Hrest]; subst.
  inversion Hrest as [|k2 min ks' vs2 Hmin Hnil]; subst.
  inversion Hnil; subst. apply at_present in Hmaj, Hmin.
  unfold_accessor. rewrite Hmaj, Hmin. simpl. by rewrite append_assoc.
Qed.

Lemma call_absent {sample : Type} (a : name) (b : kiwisdr_impl sample) k :
  k ∈ keys a -> _msg b !! k = None -> call a b = Throw MissingKey.
Proof.
  intros Hk Hnone.
  destruct a; simpl in Hk;
    try (apply list_elem_of_singleton in Hk; subst; unfold_accessor;
         by rewrite (at_absent _ _ Hnone)).
  unfold_accessor. apply elem_of_cons in Hk. destruct Hk as [->|Hk].
  - by rewrite (at_absent _ _ Hnone).
  - apply list_elem_of_singleton in Hk. subst.
    rewrite (at_absent _ _ Hnone). unfold at_.
    by destruct (_msg b !! "version_maj").
Qed.

(** Every key of an accessor is either absent or all are present. *)
Lemma keys_absent_or_present {sample : Type} (a : name) (b : kiwisdr_impl sample) :
  (exists k, k ∈ keys a /\ _msg b !! k = None) \/
  (exists vs, Forall2 (fun k v => _msg b !! k = Some v) (keys a) vs).
Proof.
  induction (keys a) as [|k ks IH].
  - right. exists []. constructor.
  - destruct (_msg b !! k) as [v|] eqn:Ek.
    + destruct IH as [(k' & Hin & Hn)|(vs & Hvs)].
      * left. exists k'. split; [by apply list_elem_of_further|done].
      * right. exists (v :: vs). by constructor.
    + left. exists k. split; [apply list_elem_of_here|done].
Qed.

Lemma stoi_not_missing s : stoi s <> Throw MissingKey.
Proof.
  intros H. destruct (stoi_throws _ _ H) as [[E _]|[E _]]; discriminate E.
Qed.

Lemma stod_not_missing s : stod s <> Throw MissingKey.
Proof.
  unfold stod. destruct (negb _); [discriminate|].
  destruct (sd_erange _); discriminate.
Qed.

Lemma parsed_not_missing (a : name) vs :
  length vs = length (keys a) -> parsed a vs <> Throw MissingKey.
Proof.
  intros Hl H.
  destruct a; simpl in Hl;
    repeat (destruct vs as [|? vs]; try discriminate Hl);
    simpl in H; unfold fmap, bind in H; try discriminate H.
  all: first
    [ destruct (stoi s) eqn:E;
      [discriminate | injection H as ->; by apply (stoi_not_missing s)]
    | destruct (stod s) eqn:E;
      [discriminate | injection H as ->; by apply (stod_not_missing s)] ].
Qed.

(** X1: an accessor throws the exception of [map::at] exactly when one
    of the keys it reads is absent; with its keys present, whatever it
    throws comes from the conversion. *)
Theorem missing_key_iff_absent {sample : Type}
    (a : name) (b : kiwisdr_impl sample) :
  call a b = Throw MissingKey <-> exists k, k ∈ keys a /\ _msg b !! k = None.
Proof.
  split.
  - intros H. destruct (keys_absent_or_present a b) as [Habs|[vs Hvs]]; [done|].
    exfalso. rewrite (call_present _ _ _ Hvs) in H.
    apply (parsed_not_missing a vs); [|done].
    symmetry. by eapply Forall2_length.
  - intros (k & Hk & Hnone). by eapply call_absent.
Qed.

Lemma missing_key_iff_absent_witness :
  call sample_rate (Examples.block ReceiverClient.Streaming [] [("rx_chans", "4")]%string)
    = Throw MissingKey.
Proof.
  apply (proj2 (missing_key_iff_absent sample_rate
                  (Examples.block ReceiverClient.Streaming [] [("rx_chans", "4")]%string))).
  exists "sample_rate"%string. split; [apply list_elem_of_here|].
  vm_compute. reflexivity.
Defined.

(** X2: the accessors that return text or a flag never throw once
    their keys are present, whatever the stored strings are; only the
    numeric accessors can fail on the content of a value. *)
Theorem text_and_flag_accessors_return {sample : Type}
    (a : name) (b : kiwisdr_impl sample) :
  numeric a = false ->
  (forall k, k ∈ keys a -> is_Some (_msg b !! k)) ->
  returns (call a b) = true.
Proof.
  intros Hn Hk.
  destruct (keys_absent_or_present a b) as [(k & Hin & Hnone)|[vs Hvs]].
  - destruct (Hk k Hin) as [v Hv]. congruence.
  - rewrite (call_present _ _ _ Hvs).
    pose proof (Forall2_length _ _ _ Hvs) as Hl.
    destruct a; try discriminate Hn; simpl in Hl;
      repeat (destruct vs as [|? vs]; try discriminate Hl); reflexivity.
Qed.

Lemma text_and_flag_accessors_return_witness :
  returns (call audio_initialized
             (Examples.block ReceiverClient.Streaming [] [("audio_init", "yes")]%string))
    = true.
Proof.
  apply (text_and_flag_accessors_return audio_initialized
           (Examples.block ReceiverClient.Streaming [] [("audio_init", "yes")]%string)).
  - reflexivity.
  - intros k Hk. apply list_elem_of_singleton in Hk. subst k.
    exists "yes"%string. vm_compute. reflexivity.
Defined.

(** X3: with [audio_init] present, [is_audio_initialized] returns true
    exactly when the stored string is "1", compared as a whole; any
    other string gives false. *)
Theorem is_audio_initialized_compares_with_one {sample : Type}
    (b : kiwisdr_impl sample) (v : string) :
  _msg b !! "audio_init" = Some v ->
  (is_audio_initialized b = Ok true <-> v = "1"%string) /\
  (is_audio_initialized b = Ok false <-> v <> "1"%string).
Proof.
  intros Hv. unfold is_audio_initialized. rewrite (at_present _ _ _ Hv). simpl.
  destruct (String.eqb_spec v "1") as [->|Hne]; split; split;
    try done; try (intros [= ?]; done).
Qed.

Lemma is_audio_initialized_compares_with_one_witness :
  is_audio_initialized
    (Examples.block ReceiverClient.Streaming [] [("audio_init", " 1")]%string)
  = Ok false.
Proof.
  apply (proj2 (is_audio_initialized_compares_with_one
                  (Examples.block ReceiverClient.Streaming []
                     [("audio_init", " 1")]%string)
                  " 1"%string ltac:(vm_compute; reflexivity))).
  discriminate.
Defined.

(** X4: whatever [get_rx_chans] or [get_chan_no_pwd] returns lies in the
    range of [int]. *)
Theorem integer_accessors_within_int {sample : Type}
    (b : kiwisdr_impl sample) (z : Z) :
  get_rx_chans b = Ok z \/ get_chan_no_pwd b = Ok z ->
  INT_MIN <= z <= INT_MAX.
Proof.
  unfold get_rx_chans, get_chan_no_pwd, at_.
  intros [H|H];
    [ destruct (_msg b !! "rx_chans") as [v|]
    | destruct (_msg b !! "chan_no_pwd") as [v|] ];
    simpl in H; try discriminate H; by destruct (stoi_sound _ _ H).
Qed.

Lemma integer_accessors_within_int_witness :
  INT_MIN <= -7 <= INT_MAX.
Proof.
  apply (integer_accessors_within_int
           (Examples.block ReceiverClient.Streaming [] [("rx_chans", " -7 dB")]%string)).
  left. vm_compute. reflexivity.
Defined.

Lemma stoi_out_of_range s z :
  numeric_prefix s z -> ~ INT_MIN <= z <= INT_MAX ->
  stoi s = Throw (out_of_range "stoi").
Proof.
  intros Hp Hz. unfold stoi. rewrite (numeric_prefix_strtol _ _ Hp).
  unfold INT_MIN, INT_MAX, LONG_MIN, LONG_MAX in *.
  destruct (z <? - 2 ^ 63) eqn:E1; [reflexivity|].
  destruct (2 ^ 63 - 1 <? z) eqn:E2; [reflexivity|].
  cbn [sl_converted sl_erange sl_value negb orb].
  destruct (z <? - 2 ^ 31) eqn:E3; [reflexivity|].
  destruct (2 ^ 31 - 1 <? z) eqn:E4; [reflexivity|].
  apply Z.ltb_ge in E3, E4. lia.
Qed.

Lemma stoi_no_numeral s :
  (~ exists z, numeric_prefix s z) -> stoi s = Throw (invalid_argument "stoi").
Proof.
  intros Hn. destruct (stoi s) as [z|e] eqn:E.
  - exfalso. apply Hn. exists z. by destruct (stoi_sound _ _ E).
  - destruct (stoi_throws _ _ E) as [[-> _]|[_ (z & Hz & _)]]; [reflexivity|].
    exfalso. apply Hn. by exists z.
Qed.

(** X5: how the integer accessors fail on a stored string.  Without
    digits after the white space and sign they throw
    [std::invalid_argument]; with a numeral whose value is outside the
    range of [int] they throw [std::out_of_range], the class that a
    missing key gives too. *)
Theorem integer_accessors_failures {sample : Type}
    (b : kiwisdr_impl sample) (v : string) :
  (_msg b !! "rx_chans" = Some v ->
   ((~ exists z, numeric_prefix v z) ->
    get_rx_chans b = Throw (invalid_argument "stoi")) /\
   (forall z, numeric_prefix v z -> ~ INT_MIN <= z <= INT_MAX ->
              get_rx_chans b = Throw (out_of_range "stoi"))) /\
  (_msg b !! "chan_no_pwd" = Some v ->
   ((~ exists z, numeric_prefix v z) ->
    get_chan_no_pwd b = Throw (invalid_argument "stoi")) /\
   (forall z, numeric_prefix v z -> ~ INT_MIN <= z <= INT_MAX ->
              get_chan_no_pwd b = Throw (out_of_range "stoi"))).
Proof.
  unfold get_rx_chans, get_chan_no_pwd.
  split; intros Hv; rewrite (at_present _ _ _ Hv); simpl;
    (split; [apply stoi_no_numeral | apply stoi_out_of_range]).
Qed.

Lemma integer_accessors_failures_witness :
  get_chan_no_pwd
    (Examples.block ReceiverClient.Streaming [] [("chan_no_pwd", "4294967296")]%string)
  = Throw (out_of_range "stoi").
Proof.
  apply (proj2 (proj2 (integer_accessors_failures
                         (Examples.block ReceiverClient.Streaming []
                            [("chan_no_pwd", "4294967296")]%string)
                         "4294967296"%string)
                  ltac:(vm_compute; reflexivity))
           4294967296).
  - exists EmptyString, EmptyString, false, "4294967296"%string, EmptyString.
    repeat split; try reflexivity; try constructor. discriminate.
  - vm_compute. intros [_ H]. by apply H.
Defined.

Lemma digit_val_char d : 0 <= d <= 9 -> digit_val (digit_char d) = Some d.
Proof.
  intros H.
  assert (d = 0 \/ d = 1 \/ d = 2 \/ d = 3 \/ d = 4 \/ d = 5 \/ d = 6 \/
          d = 7 \/ d = 8 \/ d = 9) as Hd by lia.
  repeat (destruct Hd as [->|Hd]; [reflexivity|]). by subst.
Qed.

Lemma value_of_snoc t c :
  value_of (t +:+ String c EmptyString)
  = 10 * value_of t + default 0 (digit_val c).
Proof.
  induction t as [|a t IH].
  - rewrite append_empty. simpl. lia.
  - rewrite append_cons. cbn [value_of]. rewrite IH, length_append. simpl.
    rewrite Nat.add_1_r, Nat2Z.inj_succ, Z.pow_succ_r by lia. ring.
Qed.

(** [show_digits] writes a nonempty numeral whose value is the number. *)
Lemma show_digits_numeral fuel n acc :
  (0 < fuel)%nat -> 0 <= n < 10 ^ Z.of_nat fuel ->
  exists t, show_digits fuel n acc = t +:+ acc /\ t <> EmptyString /\
            all_chars isdigit t = true /\ value_of t = n.
Proof.
  revert n acc. induction fuel as [|fuel IH]; intros n acc Hf Hn.
  - lia.
  - cbn [show_digits].
    assert (Hmod : 0 <= n mod 10 <= 9) by (pose proof (Z.mod_pos_bound n 10); lia).
    pose proof (digit_val_char _ Hmod) as Hc.
    destruct (n <? 10) eqn:E.
    + apply Z.ltb_lt in E. exists (String (digit_char (n mod 10)) EmptyString).
      split; [reflexivity|]. split; [discriminate|].
      split; [unfold all_chars; simpl; unfold isdigit; by rewrite Hc|].
      simpl. rewrite Hc. simpl. rewrite Z.mod_small by lia. lia.
    + apply Z.ltb_ge in E.
      assert (Hdiv : 0 <= n / 10 < 10 ^ Z.of_nat fuel).
      { rewrite Nat2Z.inj_succ, Z.pow_succ_r in Hn by lia.
        split; [apply Z.div_pos; lia|]. apply Z.div_lt_upper_bound; lia. }
      assert (Hf' : (0 < fuel)%nat).
      { destruct fuel; [simpl in Hn; lia|lia]. }
      destruct (IH (n / 10) (String (digit_char (n mod 10)) acc) Hf' Hdiv)
        as (t & Ht & Hne & Hd & Hv).
      exists (t +:+ String (digit_char (n mod 10)) EmptyString).
      split; [by rewrite Ht, append_assoc|].
      split; [destruct t; [done|discriminate]|].
      split.
      * rewrite all_chars_append, Hd. unfold all_chars. simpl.
        unfold isdigit. by rewrite Hc.
      * rewrite value_of_snoc, Hv, Hc. simpl.
        pose proof (Z.div_mod n 10). lia.
Qed.

(** A printed integer, followed by anything that is not a digit, reads
    back as that integer. *)
Lemma show_int_prefix z rest :
  - 10 ^ 20 < z < 10 ^ 20 -> starts_with isdigit rest = false ->
  numeric_prefix (show_int z +:+ rest) z.
Proof.
  intros Hz Hr. unfold show_int. destruct (z <? 0) eqn:E.
  - apply Z.ltb_lt in E.
    destruct (show_digits_numeral 20 (- z) EmptyString) as (t & Ht & Hne & Hd & Hv);
      [lia | simpl; lia |].
    rewrite append_empty_r in Ht. rewrite Ht.
    exists EmptyString, "-"%string, true, t, rest.
    repeat split; try done; [constructor | lia].
  - apply Z.ltb_ge in E.
    destruct (show_digits_numeral 20 z EmptyString) as (t & Ht & Hne & Hd & Hv);
      [lia | simpl; lia |].
    rewrite append_empty_r in Ht. rewrite Ht.
    exists EmptyString, EmptyString, false, t, rest.
    repeat split; try done. constructor.
Qed.

(** X6: a round trip.  When the stored string is the decimal numeral of
    an [int], followed by anything that does not start with a digit,
    [get_rx_chans] and [get_chan_no_pwd] return that [int]. *)
Theorem integer_accessors_read_printed_int {sample : Type}
    (b : kiwisdr_impl sample) (z : Z) (rest : string) :
  INT_MIN <= z <= INT_MAX ->
  starts_with isdigit rest = false ->
  (_msg b !! "rx_chans" = Some (show_int z +:+ rest) -> get_rx_chans b = Ok z) /\
  (_msg b !! "chan_no_pwd" = Some (show_int z +:+ rest) -> get_chan_no_pwd b = Ok z).
Proof.
  intros Hz Hr.
  assert (Hp : int_prefix (show_int z +:+ rest) z).
  { split; [|done]. apply show_int_prefix; [|done].
    unfold INT_MIN, INT_MAX in Hz. lia. }
  unfold get_rx_chans, get_chan_no_pwd.
  split; intros Hv; rewrite (at_present _ _ _ Hv); simpl; by apply stoi_complete.
Qed.

Lemma integer_accessors_read_printed_int_witness :
  get_rx_chans
    (Examples.block ReceiverClient.Streaming [] [("rx_chans", "-2147483648 ch")]%string)
  = Ok (-2147483648).
Proof.
  apply (proj1 (integer_accessors_read_printed_int
                  (Examples.block ReceiverClient.Streaming []
                     [("rx_chans", "-2147483648 ch")]%string)
                  (-2147483648) " ch"%string
                  ltac:(vm_compute; split; discriminate)
                  ltac:(reflexivity))).
  vm_compute. reflexivity.
Defined.

Lemma skip_space_prefix ws s :
  all_chars isspace ws = true -> skip_space (ws +:+ s) = skip_space s.
Proof.
  unfold all_chars. induction ws as [|c ws IH]; [reflexivity|].
  intros H. cbn [list_ascii_of_string forallb] in H.
  apply andb_true_iff in H. destruct H as [Hc Hws].
  rewrite append_cons. cbn [skip_space]. rewrite Hc. auto.
Qed.

Lemma stoi_skips_space ws s :
  all_chars isspace ws = true -> stoi (ws +:+ s) = stoi s.
Proof. intros H. unfold stoi, strtol. by rewrite (skip_space_prefix _ _ H). Qed.

Lemma stod_skips_space ws s :
  all_chars isspace ws = true -> stod (ws +:+ s) = stod s.
Proof. intros H. unfold stod, strtod. by rewrite (skip_space_prefix _ _ H). Qed.

(** X7: the seven numeric accessors ignore white space in front of the
    stored string: with or without it they return the same number or
    throw the same exception. *)
Theorem numeric_accessors_skip_space {sample : Type}
    (a : name) (b b' : kiwisdr_impl sample) (ws v : string) :
  numeric a = true ->
  all_chars isspace ws = true ->
  (forall k, k ∈ keys a ->
             _msg b !! k = Some v /\ _msg b' !! k = Some (ws +:+ v)) ->
  call a b' = call a b.
Proof.
  intros Hn Hws Hk.
  assert (Hb : Forall2 (fun k v => _msg b !! k = Some v) (keys a) [v]).
  { destruct a; try discriminate Hn; simpl in *;
      (constructor; [apply Hk, list_elem_of_here | constructor]). }
  assert (Hb' : Forall2 (fun k v => _msg b' !! k = Some v) (keys a) [ws +:+ v]).
  { destruct a; try discriminate Hn; simpl in *;
      (constructor; [apply Hk, list_elem_of_here | constructor]). }
  rewrite (call_present _ _ _ Hb), (call_present _ _ _ Hb').
  destruct a; try discriminate Hn; simpl;
    by rewrite ?(stoi_skips_space _ _ Hws), ?(stod_skips_space _ _ Hws).
Qed.

Lemma numeric_accessors_skip_space_witness :
  call bandwidth (Examples.block ReceiverClient.Streaming [] [("bandwidth", "  30e6")]%string)
  = call bandwidth (Examples.block ReceiverClient.Streaming [] [("bandwidth", "30e6")]%string).
Proof.
  apply (numeric_accessors_skip_space bandwidth
           (Examples.block ReceiverClient.Streaming [] [("bandwidth", "30e6")]%string)
           (Examples.block ReceiverClient.Streaming [] [("bandwidth", "  30e6")]%string)
           "  "%string "30e6"%string).
  - reflexivity.
  - reflexivity.
  - intros k Hk. apply list_elem_of_singleton in Hk. subst k.
    split; vm_compute; reflexivity.
Defined.

(** *** Rounding never invents a NaN, and keeps the sign *)

Lemma finite_shape neg m e :
  match finite neg m e with
  | S754_zero s | S754_finite s _ _ => s = neg
  | _ => False
  end.
Proof. by destruct m. Qed.

Lemma finite_opp m e : finite true m e = SFopp (finite false m e).
Proof. by destruct m. Qed.

(** A conversion that did not set [ERANGE] gives a zero or a finite
    number with the sign that was asked for. *)
Lemma round_and_return_shape neg hex b :
  sd_converted (round_and_return neg hex b) = true /\
  (sd_erange (round_and_return neg hex b) = false ->
   match sd_value (round_and_return neg hex b) with
   | S754_zero s | S754_finite s _ _ => s = neg
   | _ => False
   end).
Proof.
  unfold round_and_return.
  repeat match goal with
         | |- context [if ?c then _ else _] => destruct c
         end; cbn [sd_converted sd_erange sd_value];
    (split; [reflexivity|]); try discriminate; intros _;
    apply finite_shape.
Qed.

Lemma round_and_return_opp hex b :
  round_and_return true hex b = opposite (round_and_return false hex b).
Proof.
  unfold round_and_return, opposite.
  repeat match goal with
         | |- context [if ?c then _ else _] => destruct c
         end; cbn [sd_converted sd_erange sd_value SFopp negb];
    by rewrite ?finite_opp.
Qed.

(** *** The shape of what [strtod] converts *)

Lemma scaled_shape neg hex m k :
  sd_converted (scaled neg hex m k) = true /\
  (sd_erange (scaled neg hex m k) = false ->
   match sd_value (scaled neg hex m k) with
   | S754_zero s | S754_finite s _ _ => s = neg
   | _ => False
   end).
Proof.
  unfold scaled. destruct m as [|p|p]; cbn [sd_converted sd_erange sd_value];
    try done.
  destruct (0 <=? k); apply round_and_return_shape.
Qed.

Lemma strtod_numeral s :
  spells "inf" s = false -> spells "nan" s = false ->
  sd_converted (strtod s) = false \/
  exists hex m k, strtod s = scaled (sign_of s) hex m k.
Proof.
  unfold spells, unsigned, sign_of, strtod.
  destruct (take_sign (skip_space s)) as [neg s1]. simpl.
  intros -> ->.
  destruct (strtod_hex neg s1) as [r|] eqn:Eh.
  - right. unfold strtod_hex in Eh.
    destruct s1 as [|c0 [|x s']];
      [ discriminate Eh
      | destruct c0 as [[] [] [] [] [] [] [] []]; discriminate Eh
      | ].
    destruct c0 as [[] [] [] [] [] [] [] []]; try discriminate Eh.
    destruct (Ascii.eqb (tolower x) "x"); [|discriminate Eh].
    destruct (take_mantissa xdigit_val s') as [[ip fp] rest].
    destruct (ip ++ fp) as [|d ds]; [discriminate Eh|].
    injection Eh as <-. eauto.
  - unfold strtod_decimal.
    destruct (take_mantissa digit_val s1) as [[ip fp] rest].
    destruct (ip ++ fp) as [|d ds]; [by left|]. right. eauto.
Qed.

Lemma nan_is_not_inf t :
  starts_with_ci "nan" t = true -> starts_with_ci "inf" t = false.
Proof.
  destruct t as [|c t]; [discriminate|]. cbn [starts_with_ci].
  destruct (Ascii.eqb "n" (tolower c)) eqn:E; [|discriminate].
  apply Ascii.eqb_eq in E. by rewrite <- E.
Qed.

Lemma stod_infinite_iff s sg :
  stod s = Ok (S754_infinity sg) <-> spells "inf" s = true /\ sign_of s = sg.
Proof.
  destruct (spells "inf" s) eqn:Ei.
  - unfold stod, strtod. unfold spells, unsigned, sign_of in *.
    destruct (take_sign (skip_space s)) as [neg s1]. cbn [fst snd] in *.
    rewrite Ei. cbn. split; [by intros [= ->]|by intros [_ ->]].
  - split; [|by intros [? _]]. intros H. exfalso.
    destruct (spells "nan" s) eqn:En.
    + unfold stod, strtod in H. unfold spells, unsigned in *.
      destruct (take_sign (skip_space s)) as [neg s1]. cbn [fst snd] in *.
      rewrite Ei, En in H. discriminate H.
    + unfold stod in H.
      destruct (strtod_numeral s Ei En) as [Hc|(hex & m & k & Hs)].
      * by rewrite Hc in H.
      * rewrite Hs in H. destruct (scaled_shape (sign_of s) hex m k) as [Hc Hv].
        rewrite Hc in H. simpl in H.
        destruct (sd_erange (scaled (sign_of s) hex m k)); [discriminate H|].
        specialize (Hv eq_refl). injection H as H. by rewrite H in Hv.
Qed.

Lemma stod_nan_iff s : stod s = Ok S754_nan <-> spells "nan" s = true.
Proof.
  destruct (spells "nan" s) eqn:En.
  - unfold stod, strtod. unfold spells, unsigned in *.
    destruct (take_sign (skip_space s)) as [neg s1]. cbn [fst snd] in *.
    by rewrite (nan_is_not_inf _ En), En.
  - split; [|done]. intros H. exfalso.
    destruct (spells "inf" s) eqn:Ei.
    + unfold stod, strtod in H. unfold spells, unsigned in *.
      destruct (take_sign (skip_space s)) as [neg s1]. cbn [fst snd] in *.
      rewrite Ei in H. discriminate H.
    + unfold stod in H.
      destruct (strtod_numeral s Ei En) as [Hc|(hex & m & k & Hs)].
      * by rewrite Hc in H.
      * rewrite Hs in H. destruct (scaled_shape (sign_of s) hex m k) as [Hc Hv].
        rewrite Hc in H. simpl in H.
        destruct (sd_erange (scaled (sign_of s) hex m k)); [discriminate H|].
        specialize (Hv eq_refl). injection H as H. by rewrite H in Hv.
Qed.

Lemma real_call_present {sample : Type} (a : name) (b : kiwisdr_impl sample) v :
  real a = true -> (forall k, k ∈ keys a -> _msg b !! k = Some v) ->
  call a b = fmap VDouble (stod v).
Proof.
  intros Hr Hk.
  assert (Hb : Forall2 (fun k v => _msg b !! k = Some v) (keys a) [v]).
  { destruct a; try discriminate Hr; simpl in *;
      (constructor; [apply Hk, list_elem_of_here | constructor]). }
  rewrite (call_present _ _ _ Hb). by destruct a.
Qed.

Lemma fmap_double_ok s d : fmap VDouble (stod s) = Ok (VDouble d) <-> stod s = Ok d.
Proof.
  unfold fmap, bind. destruct (stod s); split; intros [= ?]; by subst.
Qed.

(** X8: a double accessor returns an infinity exactly when the stored
    text, after white space and sign, spells "inf" in any mix of cases;
    the sign of the text is the sign of the infinity.  A numeral too
    large for a double is never returned as an infinity. *)
Theorem real_accessors_infinite_iff_spelled {sample : Type}
    (a : name) (b : kiwisdr_impl sample) (v : string) (sg : bool) :
  real a = true ->
  (forall k, k ∈ keys a -> _msg b !! k = Some v) ->
  (call a b = Ok (VDouble (S754_infinity sg))
   <-> spells "inf" v = true /\ sign_of v = sg).
Proof.
  intros Hr Hk. rewrite (real_call_present _ _ _ Hr Hk), fmap_double_ok.
  apply stod_infinite_iff.
Qed.

Lemma real_accessors_infinite_iff_spelled_witness :
  call sample_rate
    (Examples.block ReceiverClient.Streaming [] [("sample_rate", " -Infinity")]%string)
  = Ok (VDouble (S754_infinity true)).
Proof.
  apply (proj2 (real_accessors_infinite_iff_spelled sample_rate
                  (Examples.block ReceiverClient.Streaming []
                     [("sample_rate", " -Infinity")]%string)
                  " -Infinity"%string true
                  ltac:(reflexivity)
                  ltac:(intros k Hk; apply list_elem_of_singleton in Hk; subst k;
                        vm_compute; reflexivity))).
  split; reflexivity.
Defined.

(** X9: a double accessor returns a NaN exactly when the stored text,
    after white space and sign, spells "nan" in any mix of cases; no
    numeral converts to a NaN. *)
Theorem real_accessors_nan_iff_spelled {sample : Type}
    (a : name) (b : kiwisdr_impl sample) (v : string) :
  real a = true ->
  (forall k, k ∈ keys a -> _msg b !! k = Some v) ->
  (call a b = Ok (VDouble S754_nan) <-> spells "nan" v = true).
Proof.
  intros Hr Hk. rewrite (real_call_present _ _ _ Hr Hk), fmap_double_ok.
  apply stod_nan_iff.
Qed.

Lemma real_accessors_nan_iff_spelled_witness :
  call center_freq
    (Examples.block ReceiverClient.Streaming [] [("center_freq", "NaN kHz")]%string)
  = Ok (VDouble S754_nan).
Proof.
  apply (proj2 (real_accessors_nan_iff_spelled center_freq
                  (Examples.block ReceiverClient.Streaming []
                     [("center_freq", "NaN kHz")]%string)
                  "NaN kHz"%string
                  ltac:(reflexivity)
                  ltac:(intros k Hk; apply list_elem_of_singleton in Hk; subst k;
                        vm_compute; reflexivity))).
  reflexivity.
Defined.

(** *** A leading minus sign *)

Lemma scaled_opp hex m k :
  scaled true hex m k = opposite (scaled false hex m k).
Proof.
  unfold scaled. destruct m as [|p|p]; try reflexivity.
  destruct (0 <=? k); apply round_and_return_opp.
Qed.

Lemma strtod_hex_opp s :
  strtod_hex true s = opposite <$> strtod_hex false s.
Proof.
  unfold strtod_hex.
  destruct s as [|c0 [|x s']]; try reflexivity;
    destruct c0 as [[] [] [] [] [] [] [] []]; try reflexivity.
  destruct (Ascii.eqb (tolower x) "x"); [|reflexivity].
  destruct (take_mantissa xdigit_val s') as [[ip fp] rest].
  destruct (ip ++ fp) as [|d ds]; [reflexivity|].
  simpl. by rewrite scaled_opp.
Qed.

Lemma unsigned_text s :
  starts_blank_or_signed s = false ->
  skip_space s = s /\ take_sign s = (false, s).
Proof.
  destruct s as [|c s]; [done|].
  unfold starts_blank_or_signed. simpl.
  destruct c as [[] [] [] [] [] [] [] []]; simpl; intros H;
    try discriminate H; done.
Qed.

(** What [stod] makes of a conversion result. *)
Lemma stod_unfold s :
  stod s =
    if negb (sd_converted (strtod s)) then Throw (invalid_argument "stod")
    else if sd_erange (strtod s) then Throw (out_of_range "stod")
    else Ok (sd_value (strtod s)).
Proof. reflexivity. Qed.

Lemma stod_minus s :
  starts_blank_or_signed s = false ->
  stod (String "-" s) = bind (stod s) (fun d => Ok (SFopp d)).
Proof.
  intros Hs. destruct (unsigned_text _ Hs) as [Hsp Hsg].
  rewrite !stod_unfold. unfold strtod.
  change (skip_space (String "-" s)) with (String "-"%char s).
  change (take_sign (String "-" s)) with (true, s).
  rewrite Hsp, Hsg.
  destruct (starts_with_ci "inf" s); [reflexivity|].
  destruct (starts_with_ci "nan" s); [reflexivity|].
  rewrite strtod_hex_opp.
  destruct (strtod_hex false s) as [r|]; simpl.
  - destruct (sd_converted r); [|reflexivity]. simpl.
    by destruct (sd_erange r).
  - unfold strtod_decimal.
    destruct (take_mantissa digit_val s) as [[ip fp] rest].
    destruct (ip ++ fp) as [|d ds]; [reflexivity|].
    rewrite scaled_opp. simpl.
    destruct (sd_converted (scaled false _ _ _)); [|reflexivity]. simpl.
    by destruct (sd_erange (scaled false _ _ _)).
Qed.

(** X10: a minus sign in front of the stored text negates what a double
    accessor returns and changes nothing else: it throws the same
    exception when the text without the sign makes it throw.  The text
    must start neither with white space nor with a sign. *)
Theorem real_accessors_negate_on_minus {sample : Type}
    (a : name) (b b' : kiwisdr_impl sample) (v : string) :
  real a = true ->
  starts_blank_or_signed v = false ->
  (forall k, k ∈ keys a ->
             _msg b !! k = Some v /\ _msg b' !! k = Some (String "-" v)) ->
  call a b' = fmap negate (call a b).
Proof.
  intros Hr Hv Hk.
  rewrite (real_call_present a b v Hr), (real_call_present a b' (String "-" v) Hr);
    [| intros k Hin; by apply Hk | intros k Hin; by apply Hk].
  rewrite (stod_minus _ Hv). unfold fmap, bind. by destruct (stod v).
Qed.

Lemma real_accessors_negate_on_minus_witness :
  call adc_clk_nom
    (Examples.block ReceiverClient.Streaming [] [("adc_clk_nom", "-66.6e6")]%string)
  = fmap negate
      (call adc_clk_nom
         (Examples.block ReceiverClient.Streaming [] [("adc_clk_nom", "66.6e6")]%string)).
Proof.
  apply (real_accessors_negate_on_minus adc_clk_nom
           (Examples.block ReceiverClient.Streaming [] [("adc_clk_nom", "66.6e6")]%string)
           (Examples.block ReceiverClient.Streaming [] [("adc_clk_nom", "-66.6e6")]%string)
           "66.6e6"%string).
  - reflexivity.
  - reflexivity.
  - intros k Hk. apply list_elem_of_singleton in Hk. subst k.
    split; vm_compute; reflexivity.
Defined.

(** *** The version string *)

Lemma dot_join_injective maj1 min1 maj2 min2 :
  no_dot maj1 = true -> no_dot maj2 = true ->
  maj1 +:+ "." +:+ min1 = maj2 +:+ "." +:+ min2 ->
  maj1 = maj2 /\ min1 = min2.
Proof.
  unfold no_dot, all_chars. revert maj2.
  induction maj1 as [|c1 maj1 IH]; intros [|c2 maj2] H1 H2;
    rewrite ?append_cons, ?append_empty; simpl in H1, H2.
  - by intros [= ->].
  - intros [= <- _]. discriminate H2.
  - intros [= -> _]. discriminate H1.
  - apply andb_true_iff in H1, H2. destruct H1 as [_ H1], H2 as [_ H2].
    intros [= -> He]. destruct (IH maj2 H1 H2 He) as [-> ->]. done.
Qed.

(** X11: the version string tells the two fields apart.  When two
    blocks return the same string from [get_version] and neither stored
    [version_maj] contains a dot, their [version_maj] fields are equal
    and so are their [version_min] fields. *)
Theorem get_version_injective {sample : Type}
    (b1 b2 : kiwisdr_impl sample) (maj1 min1 maj2 min2 : string) :
  _msg b1 !! "version_maj" = Some maj1 -> _msg b1 !! "version_min" = Some min1 ->
  _msg b2 !! "version_maj" = Some maj2 -> _msg b2 !! "version_min" = Some min2 ->
  no_dot maj1 = true -> no_dot maj2 = true ->
  get_version b1 = get_version b2 ->
  maj1 = maj2 /\ min1 = min2.
Proof.
  intros Ha1 Hi1 Ha2 Hi2 Hd1 Hd2. unfold get_version.
  rewrite (at_present _ _ _ Ha1), (at_present _ _ _ Hi1),
          (at_present _ _ _ Ha2), (at_present _ _ _ Hi2).
  simpl. rewrite !append_assoc. intros [= He].
  by apply dot_join_injective.
Qed.

Lemma get_version_injective_witness :
  "1"%string = "1"%string /\ "290"%string = "290"%string.
Proof.
  apply (get_version_injective
           (Examples.block ReceiverClient.Streaming []
              [("version_maj", "1"); ("version_min", "290")]%string)
           (Examples.block ReceiverClient.Handshaking []
              [("version_min", "290"); ("version_maj", "1")]%string)
           "1"%string "290"%string "1"%string "290"%string);
    vm_compute; reflexivity.
Defined.

(** *** The sign of a converted double *)

Lemma stod_signed s d :
  stod s = Ok d -> d = S754_nan \/ signed_as (sign_of s) d.
Proof.
  intros H.
  destruct (spells "inf" s) eqn:Ei.
  - right. unfold stod, strtod in H. unfold spells, unsigned, sign_of in *.
    destruct (take_sign (skip_space s)) as [neg s1]. cbn [fst snd] in *.
    rewrite Ei in H. cbn in H. by injection H as <-.
  - destruct (spells "nan" s) eqn:En.
    + left. apply stod_nan_iff in En. congruence.
    + right. rewrite stod_unfold in H.
      destruct (strtod_numeral s Ei En) as [Hc|(hex & m & k & Hs)].
      * by rewrite Hc in H.
      * rewrite Hs in H. destruct (scaled_shape (sign_of s) hex m k) as [Hc Hv].
        rewrite Hc in H. simpl in H.
        destruct (sd_erange (scaled (sign_of s) hex m k)); [discriminate H|].
        specialize (Hv eq_refl). injection H as H. rewrite H in Hv.
        by destruct d.
Qed.

(** X12: what a double accessor returns is a NaN or carries the sign
    written in the stored text: no minus gives a positive zero, number
    or infinity, a minus gives a negative one, negative zero included. *)
Theorem real_accessors_keep_sign {sample : Type}
    (a : name) (b : kiwisdr_impl sample) (v : string) (d : double) :
  real a = true ->
  (forall k, k ∈ keys a -> _msg b !! k = Some v) ->
  call a b = Ok (VDouble d) ->
  d = S754_nan \/ signed_as (sign_of v) d.
Proof.
  intros Hr Hk. rewrite (real_call_present _ _ _ Hr Hk), fmap_double_ok.
  apply stod_signed.
Qed.

Lemma real_accessors_keep_sign_witness :
  S754_zero true = S754_nan \/ signed_as true (S754_zero true).
Proof.
  apply (real_accessors_keep_sign audio_rate
           (Examples.block ReceiverClient.Streaming [] [("audio_rate", "-0.0")]%string)
           "-0.0"%string (S754_zero true)).
  - reflexivity.
  - intros k Hk. apply list_elem_of_singleton in Hk. subst k.
    vm_compute. reflexivity.
  - vm_compute. reflexivity.
Defined.

End More.
